(** * JSON checker primitives of the Spyglass json package

    A shallow embedding of [object], [record], [opt], [deprecated],
    [dispatch], [pick], [when], [extract] and [having]
    (packages/json/src/checker/primitives/object.ts) together with the
    properties of these combinators that the design document states.

    Conventions of the embedding.

    - A JavaScript object used as a record ([CheckerRecord], the case tables)
      is the list of its own properties in the order [Object.keys]
      enumerates them.
    - A checker is an [async] function whose body contains no [await]: the
      whole body has run when the call returns.  A checker is therefore a
      function from the node and the context to the node with its slots
      rewritten, the captured schema state and the diagnostics handed to
      [ctx.err], in order of the calls to [report].
    - The record objects that [pick] rewrites live in a heap of record
      objects addressed by reference. *)

From stdpp Require Import base option strings list gmap.
From Stdlib Require Import ZArith Lia Permutation Sorted.

Local Open Scope string_scope.
Local Open Scope Z_scope.

Set Warnings "-register-all".

(** ** Ranges, diagnostics and the locale functions *)

(** Modelled from the spec: [Range] of the core package, a pair of integer
    offsets; [Range.create] with a single offset is the empty range there. *)
Module Range.
Record t : Type := { start : Z; end_ : Z }.

Definition create (start : Z) (end_ : option Z) : t :=
  {| start := start; end_ := default start end_ |}.
End Range.

(** Modelled from the spec: the severities of the diagnostic sink. *)
Module ErrorSeverity.
Inductive t : Type := Hint | Information | Warning | Error.
End ErrorSeverity.

(** The optional fourth argument of [report]: [{ deprecated: true }]. *)
Record LanguageErrorInfo : Type := { info_deprecated : bool }.

Record LanguageError : Type := {
  message : string;
  range : Range.t;
  severity : ErrorSeverity.t;
  info : option LanguageErrorInfo;
}.

(** Modelled from the spec: [ErrorReporter.report(message, anchor,
    severity?, tags?)]; the anchor is a range or a node, of which the range
    is kept, and the default severity is Error.  The function builds the
    diagnostic that [report] appends to the sink. *)
Definition report (message : string) (anchor : Range.t)
    (severity : option ErrorSeverity.t) (info : option LanguageErrorInfo)
  : LanguageError :=
  {| message := message;
     range := anchor;
     severity := default ErrorSeverity.Error severity;
     info := info |}.

(** The rest arguments of [localize(key, ...params)]: the calls of this
    module pass a string or an array of strings. *)
Inductive LocaleParam : Type :=
| ParamText (text : string)
| ParamList (items : list string).

(** ** Nodes *)

Record JsonField (E : Type) : Type := {
  field_key : string;
  field_value : option (list E);
  field_opt : bool;
  field_deprecated : bool;
}.
Arguments field_key {E}.
Arguments field_value {E}.
Arguments field_opt {E}.
Arguments field_deprecated {E}.

(** Modelled from the spec: an expectation is a type descriptor with a type
    tag and a human-readable label and, for objects, the field list or the
    expectation of the dynamic keys. *)
Inductive JsonExpectation : Type :=
| Expectation (type typedoc : string)
    (fields : option (list (JsonField JsonExpectation)))
    (keys : option (list JsonExpectation)).

Definition expectation_type (e : JsonExpectation) : string :=
  match e with Expectation type _ _ _ => type end.

Definition typedoc (e : JsonExpectation) : string :=
  match e with Expectation _ typedoc _ _ => typedoc end.

(** [JsonStringExpectation.is]. *)
Definition JsonStringExpectation_is (e : JsonExpectation) : bool :=
  String.eqb (expectation_type e) "json:string".

(** The fields every node carries: its range and the two writable slots. *)
Record AstSlots : Type := {
  node_range : Range.t;
  expectation_slot : option (list JsonExpectation);
  hover : option string;
}.

Record JsonStringNode : Type := {
  string_slots : AstSlots;
  string_value : string;
}.

Record PairNode (K V : Type) : Type := {
  key : option K;
  value : option V;
}.
Arguments key {K V}.
Arguments value {K V}.

Inductive OtherKind : Type := JsonNull | JsonBoolean | JsonNumber | JsonArray.

(** Modelled from the spec: a node is a tagged value with a range, an
    expectation slot and, for objects, the ordered key/value pairs. *)
Inductive JsonNode : Type :=
| ObjectNode (slots : AstSlots)
    (children : list (PairNode JsonStringNode JsonNode))
| StringNode (node : JsonStringNode)
| OtherNode (kind : OtherKind) (slots : AstSlots) (items : list JsonNode).

Definition slots_of (node : JsonNode) : AstSlots :=
  match node with
  | ObjectNode slots _ => slots
  | StringNode n => string_slots n
  | OtherNode _ slots _ => slots
  end.

Definition with_slots (node : JsonNode) (slots : AstSlots) : JsonNode :=
  match node with
  | ObjectNode _ children => ObjectNode slots children
  | StringNode n =>
      StringNode {| string_slots := slots; string_value := string_value n |}
  | OtherNode kind _ items => OtherNode kind slots items
  end.

(** [node.expectation = e]. *)
Definition set_expectation (node : JsonNode) (e : list JsonExpectation)
  : JsonNode :=
  with_slots node
    {| node_range := node_range (slots_of node);
       expectation_slot := Some e;
       hover := hover (slots_of node) |}.

(** [key.hover = text]. *)
Definition set_hover (k : JsonStringNode) (text : string) : JsonStringNode :=
  {| string_slots :=
       {| node_range := node_range (string_slots k);
          expectation_slot := expectation_slot (string_slots k);
          hover := Some text |};
     string_value := string_value k |}.

(** [JsonObjectNode.is]. *)
Definition JsonObjectNode_is (node : JsonNode) : bool :=
  match node with ObjectNode _ _ => true | _ => false end.

(** [{ type: 'json:null', range: Range.create(0) }]. *)
Definition null_placeholder : JsonNode :=
  OtherNode JsonNull
    {| node_range := Range.create 0 None;
       expectation_slot := None;
       hover := None |} [].

(** ** Property specs *)

Record ComplexProperty (C : Type) : Type := {
  cp_checker : C;
  cp_opt : option bool;
  cp_deprecated : option bool;
  cp_context : option string;
}.
Arguments cp_checker {C}.
Arguments cp_opt {C}.
Arguments cp_deprecated {C}.
Arguments cp_context {C}.

(** [CheckerProperty = JsonChecker | ComplexProperty], over the type [C] of
    checkers. *)
Inductive CheckerProperty (C : Type) : Type :=
| Bare (checker : C)
| Complex (property : ComplexProperty C).
Arguments Bare {C}.
Arguments Complex {C}.

(** A JavaScript record: the own properties in [Object.keys] order. *)
Definition JsRecord (V : Type) : Type := list (string * V).

Definition CheckerRecord (C : Type) : Type := JsRecord (CheckerProperty C).

Definition Object_keys {V : Type} (o : JsRecord V) : list string := o.*1.

(** [o[k]]: the property stored under [k], if any. *)
Fixpoint get_property {V : Type} (o : JsRecord V) (k : string) : option V :=
  match o with
  | [] => None
  | (k', v) :: o' => if String.eqb k' k then Some v else get_property o' k
  end.

(** [o[k] = v] on a record that has the own property [k]. *)
Fixpoint set_property {V : Type} (o : JsRecord V) (k : string) (v : V)
  : JsRecord V :=
  match o with
  | [] => [(k, v)]
  | (k', v') :: o' =>
      if String.eqb k' k then (k', v) :: o'
      else (k', v') :: set_property o' k v
  end.

Definition isComplex {C : Type} (checker : CheckerProperty C) : bool :=
  match checker with Bare _ => false | Complex _ => true end.

(** [isComplex(p) ? p.checker : p]. *)
Definition checker_of {C : Type} (p : CheckerProperty C) : C :=
  match p with Bare c => c | Complex cp => cp_checker cp end.

(** Truthiness of an optional boolean flag and of an optional string. *)
Definition flag (b : option bool) : bool := default false b.

Definition nonempty (s : option string) : bool :=
  match s with Some (String _ _) => true | _ => false end.

(** [isComplex(p) && (p.opt || p.deprecated)]. *)
Definition is_optional {C : Type} (p : CheckerProperty C) : bool :=
  match p with
  | Bare _ => false
  | Complex cp => flag (cp_opt cp) || flag (cp_deprecated cp)
  end.

(** [isComplex(p) && p.deprecated]. *)
Definition is_deprecated {C : Type} (p : CheckerProperty C) : bool :=
  match p with
  | Bare _ => false
  | Complex cp => flag (cp_deprecated cp)
  end.

(** The spec with its deprecated flag removed. *)
Definition undeprecated {C : Type} (p : CheckerProperty C)
  : CheckerProperty C :=
  match p with
  | Bare c => Bare c
  | Complex cp =>
      Complex {| cp_checker := cp_checker cp;
                 cp_opt := cp_opt cp;
                 cp_deprecated := None;
                 cp_context := cp_context cp |}
  end.

Definition opt {C : Type} (checker : C) : ComplexProperty C :=
  {| cp_checker := checker; cp_opt := Some true;
     cp_deprecated := None; cp_context := None |}.

Definition deprecated {C : Type} (checker : C) : ComplexProperty C :=
  {| cp_checker := checker; cp_opt := None;
     cp_deprecated := Some true; cp_context := None |}.

(** ** Strings *)

Fixpoint strip_prefix (p s : string) : option string :=
  match p, s with
  | EmptyString, _ => Some s
  | String a p', String b s' =>
      if Ascii.eqb a b then strip_prefix p' s' else None
  | String _ _, EmptyString => None
  end.

(** [value.replace(/^minecraft:/, '')]. *)
Definition strip_namespace (value : string) : string :=
  default value (strip_prefix "minecraft:" value).

Definition newline : string := String (Ascii.ascii_of_nat 10) EmptyString.

(** [array.join(sep)]. *)
Definition join (sep : string) (items : list string) : string :=
  String.concat sep items.

(** [keys.includes(k)]. *)
Definition includes (keys : list string) (k : string) : bool :=
  existsb (String.eqb k) keys.

(** [givenKeys.includes(k)] on the array of [n.key?.value], whose entries
    are undefined for the pairs without a key. *)
Definition given (givenKeys : list (option string)) (k : string) : bool :=
  existsb (fun g => match g with
                    | Some g => String.eqb k g
                    | None => false
                    end) givenKeys.

Definition PairNodes : Type := list (PairNode JsonStringNode JsonNode).

(** [node.children.map(n => n.key?.value)]. *)
Definition given_keys (children : PairNodes) : list (option string) :=
  map (fun n => string_value <$> key n) children.

(** ** Checkers

    [S] is the state of the mutable objects that the closures of a schema
    capture (for instance the tables that [pick] rewrites); schemas that
    capture nothing mutable take [S := unit]. *)

Record JsonCheckerContext : Type := {
  depth : option Z;
  context : string;
}.

(** [{ ...ctx, context }]. *)
Definition with_context (ctx : JsonCheckerContext) (context : string)
  : JsonCheckerContext :=
  {| depth := depth ctx; context := context |}.

(** [!ctx.depth || ctx.depth <= 0]. *)
Definition depth_guard (ctx : JsonCheckerContext) : bool :=
  match depth ctx with
  | None => true
  | Some d => (d =? 0) || (d <=? 0)
  end.

Record Outcome (S A : Type) : Type := {
  result : A;
  state : S;
  reports : list LanguageError;
}.
Arguments result {S A}.
Arguments state {S A}.
Arguments reports {S A}.

(** State passing with the diagnostics written to the sink. *)
Definition Eff (S A : Type) : Type := S -> Outcome S A.

Definition ret {S A : Type} (a : A) : Eff S A :=
  fun s => {| result := a; state := s; reports := [] |}.

Definition bind {S A B : Type} (m : Eff S A) (f : A -> Eff S B) : Eff S B :=
  fun s =>
    let o := m s in
    let o' := f (result o) (state o) in
    {| result := result o';
       state := state o';
       reports := reports o ++ reports o' |}.

(** [ctx.err.report(...)]. *)
Definition err_report {S : Type} (e : LanguageError) : Eff S unit :=
  fun s => {| result := tt; state := s; reports := [e] |}.

(** Reading the captured state. *)
Definition gets {S A : Type} (f : S -> A) : Eff S A :=
  fun s => {| result := f s; state := s; reports := [] |}.

Notation "'let*' x ':=' m 'in' k" := (bind m (fun x => k))
  (at level 10, x name, m at level 200, k at level 200).
Notation "'exec' m 'then' k" := (bind m (fun _ => k))
  (at level 10, m at level 200, k at level 200).

(** [items.forEach(f)], the callbacks running one after the other. *)
Fixpoint forEach {S A : Type} (f : A -> Eff S unit) (items : list A)
  : Eff S unit :=
  match items with
  | [] => ret tt
  | x :: items' => exec f x then forEach f items'
  end.

(** [forEach] with a callback that rewrites the slots of its item. *)
Fixpoint forEach_update {S A : Type} (f : A -> Eff S A) (items : list A)
  : Eff S (list A) :=
  match items with
  | [] => ret []
  | x :: items' =>
      let* x' := f x in
      let* items'' := forEach_update f items' in
      ret (x' :: items'')
  end.

Definition JsonChecker (S : Type) : Type :=
  JsonNode -> JsonCheckerContext -> Eff S JsonNode.

(** The keys argument and the values argument of the three overloads of
    [object].  A values function reads the captured state. *)
Inductive ObjectSchema (S : Type) : Type :=
| AnyObject
| FixedKeys (keys : list string)
    (values : string -> S -> CheckerProperty (JsonChecker S))
| DynamicKeys (keys : JsonChecker S)
    (values : string -> S -> CheckerProperty (JsonChecker S)).
Arguments AnyObject {S}.
Arguments FixedKeys {S}.
Arguments DynamicKeys {S}.

(** [propNode.expectation?.map(e => e.typedoc).join(' | ')] inside a
    template literal. *)
Definition typedocs (e : option (list JsonExpectation)) : string :=
  match e with
  | None => "undefined"
  | Some es => join " | " (map typedoc es)
  end.

(** The string node that a checker called on a key hands back. *)
Definition as_string_node (node : JsonNode) (k : JsonStringNode)
  : JsonStringNode :=
  match node with StringNode k' => k' | _ => k end.

(** [JsonObjectNode.is(node) ? node.children.map(n => n.key?.value) : []]. *)
Definition node_given_keys (node : JsonNode) : list (option string) :=
  match node with
  | ObjectNode _ children => given_keys children
  | _ => []
  end.

(** [children.findIndex(f)]: the index of the first match, or -1. *)
Fixpoint findIndex {A : Type} (f : A -> bool) (items : list A) : Z :=
  match items with
  | [] => -1
  | x :: items' =>
      if f x then 0
      else let i := findIndex f items' in if i <? 0 then -1 else i + 1
  end.

(** [items[i]]: undefined out of range. *)
Definition at_index {A : Type} (items : list A) (i : Z) : option A :=
  if i <? 0 then None else items !! Z.to_nat i.

(** [p => p.key?.value === name]. *)
Definition key_is (name : string) (p : PairNode JsonStringNode JsonNode)
  : bool :=
  match key p with
  | Some k => String.eqb (string_value k) name
  | None => false
  end.

(** [p?.value?.type === 'json:string' ? p.value.value : undefined]. *)
Definition string_value_of (p : option (PairNode JsonStringNode JsonNode))
  : option string :=
  match p with
  | Some {| value := Some (StringNode n) |} => Some (string_value n)
  | _ => None
  end.

Definition extract (value : string) (children : PairNodes) : option string :=
  let node := List.find (key_is value) children in
  string_value_of node.

(** [when]; the default of [notProperties] is the empty record. *)
Definition when {C : Type} (value : option string) (values : list string)
    (properties : CheckerRecord C) (notProperties : option (CheckerRecord C))
  : CheckerRecord C :=
  match value with
  | None => []
  | Some value =>
      if negb (includes values (strip_namespace value))
      then default [] notProperties
      else properties
  end.

(** A case of [having]: a record, or a function producing one.  The
    function is a closure as any other: calling it may report to the sink
    and change the captured state. *)
Inductive Case (S C : Type) : Type :=
| Direct (properties : CheckerRecord C)
| Producer (produce : Eff S (CheckerRecord C)).
Arguments Direct {S C}.
Arguments Producer {S C}.

(** [typeof c === 'function' ? c() : c]. *)
Definition force {S C : Type} (c : Case S C) : Eff S (CheckerRecord C) :=
  match c with
  | Direct properties => ret properties
  | Producer produce => produce
  end.

(** [items.map(f)], the callbacks running one after the other. *)
Fixpoint map_each {S A B : Type} (f : A -> Eff S B) (items : list A)
  : Eff S (list B) :=
  match items with
  | [] => ret []
  | x :: items' =>
      let* y := f x in
      let* ys := map_each f items' in
      ret (y :: ys)
  end.

(** [([k, v]) => [k, typeof v === 'function' ? v()[k] : v[k]]]. *)
Definition fallback_entry {S C : Type} (e : string * Case S C)
  : Eff S (string * option (CheckerProperty C)) :=
  let* properties := force e.2 in
  ret (e.1, get_property properties e.1).

(** What the cases of a table report when they are evaluated one after
    the other from the state [s], a producer being called and a record
    reporting nothing, and the state in which they leave the schema. *)
Fixpoint producer_calls {S C : Type} (cases : JsRecord (Case S C)) (s : S)
  : S * list LanguageError :=
  match cases with
  | [] => (s, [])
  | e :: cases' =>
      let called := force e.2 s in
      let rest := producer_calls cases' (state called) in
      (rest.1, (reports called ++ rest.2)%list)
  end.

(** [Object.fromEntries(entries)]: a later entry overwrites the value of an
    earlier one with the same key, at the place of the earlier one. *)
Definition Object_fromEntries {V : Type} (entries : list (string * V))
  : JsRecord V :=
  fold_left (fun o e => set_property o e.1 e.2) entries [].

(** A record all of whose properties are defined, seen as a record whose
    properties may be undefined. *)
Definition defined {V : Type} (o : JsRecord V) : JsRecord (option V) :=
  map (fun e => (e.1, Some e.2)) o.

(** The own property keys of an object come in the order that the language
    fixes: the keys that are array indices (canonical decimal numerals below
    2^32 - 1) in ascending numeric order, then the other keys in the order
    in which they were created. *)
Definition digit_value (a : Ascii.ascii) : option N :=
  let n := Ascii.N_of_ascii a in
  if (48 <=? n)%N && (n <=? 57)%N then Some (n - 48)%N else None.

Fixpoint digits_value (s : string) (acc : N) : option N :=
  match s with
  | EmptyString => Some acc
  | String a s' =>
      match digit_value a with
      | Some d => digits_value s' (10 * acc + d)%N
      | None => None
      end
  end.

Definition array_index (k : string) : option N :=
  match k with
  | EmptyString => None
  | String a rest =>
      if (Ascii.N_of_ascii a =? 48)%N && negb (String.eqb rest EmptyString)
      then None
      else
        match digits_value k 0 with
        | Some n => if (n <? 4294967295)%N then Some n else None
        | None => None
        end
  end.

Fixpoint insert_by_index {V : Type} (n : N) (e : string * V)
    (sorted : list (N * (string * V))) : list (N * (string * V)) :=
  match sorted with
  | [] => [(n, e)]
  | (m, e') :: sorted' =>
      if (n <? m)%N then (n, e) :: sorted
      else (m, e') :: insert_by_index n e sorted'
  end.

(** The entries whose key is an array index, by ascending index. *)
Definition indexed_entries {V : Type} (o : list (string * V))
  : list (N * (string * V)) :=
  fold_right
    (fun e sorted =>
       match array_index e.1 with
       | Some n => insert_by_index n e sorted
       | None => sorted
       end)
    [] o.

(** The order of the entries whose key is an array index. *)
Definition by_index {V : Type} (x y : N * (string * V)) : Prop :=
  (x.1 <= y.1)%N.

(** The entries whose key is not an array index, in order of creation. *)
Definition named_entries {V : Type} (o : list (string * V))
  : list (string * V) :=
  List.filter
    (fun e => match array_index e.1 with Some _ => false | None => true end)
    o.

(** The record of the object literal [{k1: v1, k2: v2, ...}], [declared]
    being its properties as the source text declares them. *)
Definition Object_literal {V : Type} (declared : list (string * V))
  : JsRecord V :=
  let created := Object_fromEntries declared in
  (map snd (indexed_entries created) ++ named_entries created)%list.

Section Primitives.
Variable S : Type.

(** [localize] and [localeQuote] of the locales package and [expectation]
    of [./util] are outside this module; [expectation] runs a checker only
    to harvest the expectation it leaves on a node. *)
Variable localize : string -> list LocaleParam -> string.
Variable localeQuote : string -> string.
Variable expectation :
  JsonChecker S -> JsonCheckerContext -> S -> option (list JsonExpectation).

Definition Property : Type := CheckerProperty (JsonChecker S).

Definition field_of (values : string -> S -> Property)
    (ctx : JsonCheckerContext) (s : S) (key : string)
  : JsonField JsonExpectation :=
  let prop := values key s in
  {| field_key := key;
     field_value := expectation (checker_of prop) ctx s;
     field_opt := is_optional prop;
     field_deprecated := is_deprecated prop |}.

(** Lines 29-45: the expectation written to the node. *)
Definition object_expectation (schema : ObjectSchema S)
    (ctx : JsonCheckerContext) (s : S) : list JsonExpectation :=
  if depth_guard ctx then
    match schema with
    | FixedKeys keys values =>
        [Expectation "json:object" "Object"
           (Some (map (field_of values ctx s) keys)) None]
    | DynamicKeys keys values =>
        [Expectation "json:object" "Object" None
           (List.filter JsonStringExpectation_is <$> expectation keys ctx s)]
    | AnyObject => [Expectation "json:object" "Object" None None]
    end
  else [Expectation "json:object" "Object" None None].

Definition expected_object (node : JsonNode) : LanguageError :=
  report (localize "expected" [ParamText (localize "object" [])])
    (node_range (slots_of node)) None None.

Definition missing_property (at_ : Range.t) (k : string) : LanguageError :=
  report (localize "json.checker.property.missing" [ParamText (localeQuote k)])
    (Range.create (Range.start at_) (Some (Range.start at_ + 1))) None None.

Definition unknown_property (k : JsonStringNode) : LanguageError :=
  report
    (localize "json.checker.property.unknown"
       [ParamText (localeQuote (string_value k))])
    (node_range (string_slots k)) (Some ErrorSeverity.Warning) None.

Definition deprecated_property (k : JsonStringNode) : LanguageError :=
  report
    (localize "json.checker.property.deprecated"
       [ParamText (localeQuote (string_value k))])
    (node_range (string_slots k)) (Some ErrorSeverity.Hint)
    (Some {| info_deprecated := true |}).

(** Lines 51-59, the body of [keys.forEach]. *)
Definition check_missing (values : string -> S -> Property)
    (givenKeys : list (option string)) (at_ : Range.t) (k : string)
  : Eff S unit :=
  let* spec := gets (values k) in
  if is_optional spec then ret tt
  else if negb (given givenKeys k)
       then err_report (missing_property at_ k)
       else ret tt.

(** Line 69: the documentation path of a property. *)
Definition property_context (ctx : JsonCheckerContext) (spec : Property)
    (key : string) : string :=
  context ctx ++ "." ++
  match spec with
  | Complex cp =>
      if nonempty (cp_context cp)
      then default EmptyString (cp_context cp) ++ "."
      else EmptyString
  | Bare _ => EmptyString
  end ++ key.

(** Line 73: the hover text of a key. *)
Definition hover_text (context : string) (propNode : JsonNode)
    (doc : string) : string :=
  "```typescript" ++ newline ++ context ++ ": " ++
  typedocs (expectation_slot (slots_of propNode)) ++ newline ++ "```" ++
  match doc with
  | EmptyString => EmptyString
  | _ => newline ++ "******" ++ newline ++ doc
  end.

(** Lines 60-75, the body of the loop over the pairs that have a key. *)
Definition check_property (keys : list string)
    (values : string -> S -> Property) (ctx : JsonCheckerContext)
    (prop : PairNode JsonStringNode JsonNode)
  : Eff S (PairNode JsonStringNode JsonNode) :=
  match key prop with
  | None => ret prop
  | Some k =>
      if negb (includes keys (string_value k)) then
        exec err_report (unknown_property k) then ret prop
      else
        let* spec := gets (values (string_value k)) in
        exec (if is_deprecated spec
              then err_report (deprecated_property k)
              else ret tt) then
        let context := property_context ctx spec (string_value k) in
        let doc := localize ("json.doc." ++ context) [] in
        let propNode := default null_placeholder (value prop) in
        let* propNode' :=
          checker_of spec propNode (with_context ctx context) in
        ret {| key := Some (set_hover k (hover_text context propNode' doc));
               value := (fun _ => propNode') <$> value prop |}
  end.

(** Lines 77-83, the body of the loop of the dynamic-key mode. *)
Definition check_dynamic (keys : JsonChecker S)
    (values : string -> S -> Property) (ctx : JsonCheckerContext)
    (prop : PairNode JsonStringNode JsonNode)
  : Eff S (PairNode JsonStringNode JsonNode) :=
  match key prop with
  | None => ret prop
  | Some k =>
      let* keyNode := keys (StringNode k) ctx in
      let k' := as_string_node keyNode k in
      match value prop with
      | None => ret {| key := Some k'; value := None |}
      | Some v =>
          let* spec := gets (values (string_value k')) in
          let* v' := checker_of spec v ctx in
          ret {| key := Some k'; value := Some v' |}
      end
  end.

Definition object (schema : ObjectSchema S) : JsonChecker S :=
  fun node ctx =>
    let* e := gets (object_expectation schema ctx) in
    let node := set_expectation node e in
    match node with
    | ObjectNode slots children =>
        match schema with
        | AnyObject => ret node
        | FixedKeys keys values =>
            let givenKeys := given_keys children in
            exec forEach
                   (check_missing values givenKeys (node_range slots))
                   keys then
            let* children' :=
              forEach_update (check_property keys values ctx) children in
            ret (ObjectNode slots children')
        | DynamicKeys keys values =>
            let* children' :=
              forEach_update (check_dynamic keys values ctx) children in
            ret (ObjectNode slots children')
        end
    | _ => exec err_report (expected_object node) then ret node
    end.

(** The checker called when [values(key)] is undefined.  [record] asks
    only for the keys of [Object.keys(properties)], and no combinator
    removes a property, so it stands for a call that does not happen. *)
Definition no_checker : JsonChecker S := fun node _ => ret node.

(** [record(properties)]: the keys are read when the checker is built,
    [properties[key]] each time the checker asks for it. *)
Definition record (properties : S -> CheckerRecord (JsonChecker S)) (s : S)
  : JsonChecker S :=
  object
    (FixedKeys (Object_keys (properties s))
       (fun key s' =>
          default (Bare no_checker) (get_property (properties s') key))).

Definition dispatch (keyName : string)
    (values : option string -> PairNodes -> Eff S (JsonChecker S))
  : JsonChecker S :=
  fun node ctx =>
    match node with
    | ObjectNode _ children =>
        let dispatcherIndex := findIndex (key_is keyName) children in
        let dispatcher := at_index children dispatcherIndex in
        let value := string_value_of dispatcher in
        let* checker := values value children in
        checker node ctx
    | _ => exec err_report (expected_object node) then ret node
    end.

(** [having]; a property of the record it returns is undefined when the
    branch it is read from does not declare it. *)
Definition having {C : Type} (node : JsonNode) (ctx : JsonCheckerContext)
    (cases : JsRecord (Case S C))
  : Eff S (JsRecord (option (CheckerProperty C))) :=
  let givenKeys := node_given_keys node in
  let key := List.find (given givenKeys) (Object_keys cases) in
  match key with
  | None =>
      exec err_report
             (report
                (localize "json.checker.property.missing"
                   [ParamList (Object_keys cases)])
                (Range.create (Range.start (node_range (slots_of node)))
                   (Some (Range.start (node_range (slots_of node)) + 1)))
                None None) then
      let* entries := map_each fallback_entry cases in
      ret (Object_fromEntries entries)
  | Some key =>
      match get_property cases key with
      | Some c =>
          let* properties := force c in
          ret (defined properties)
      | None => ret []
      end
  end.

End Primitives.

Arguments object {S}.
Arguments record {S}.
Arguments dispatch {S}.
Arguments having {S} localize {C}.
Arguments check_missing {S}.
Arguments check_property {S}.
Arguments check_dynamic {S}.
Arguments object_expectation {S}.
Arguments property_context {S}.
Arguments no_checker {S}.

(** ** The heap of record objects and [pick] *)

(** A reference to a record object. *)
Abbreviation Ref := nat.

Abbreviation Heap C := (gmap Ref (CheckerRecord C)).

(** The record a function returns: an object literal that it has just
    built, or a reference to an object of the heap. *)
Inductive RecordValue (C : Type) : Type :=
| NewRecord (properties : CheckerRecord C)
| RecordAt (properties : Ref).
Arguments NewRecord {C}.
Arguments RecordAt {C}.

Section Pick.
Variable C : Type.

Definition read (h : Heap C) (r : Ref) : CheckerRecord C :=
  default [] (h !! r).

(** The right-hand side of the assignment of lines 126-131. *)
Definition picked (name : string) (p : CheckerProperty C)
  : CheckerProperty C :=
  Complex
    {| cp_checker := checker_of p;
       cp_opt := match p with Complex cp => cp_opt cp | Bare _ => None end;
       cp_deprecated :=
         match p with Complex cp => cp_deprecated cp | Bare _ => None end;
       cp_context := Some name |}.

(** Lines 124-132, the body of [Object.keys(properties).forEach]. *)
Definition pick_property (properties : Ref) (name : string) (key : string)
  : Eff (Heap C) unit :=
  fun h =>
    {| result := tt;
       state :=
         match get_property (read h properties) key with
         | Some p =>
             <[properties :=
                 set_property (read h properties) key (picked name p)]> h
         | None => h
         end;
       reports := [] |}.

Definition pick (value : option string) (cases : JsRecord Ref)
  : Eff (Heap C) (RecordValue C) :=
  match value with
  | None => ret (NewRecord [])
  | Some value =>
      match get_property cases (strip_namespace value) with
      | None => ret (NewRecord [])
      | Some properties =>
          let* keys := gets (fun h => Object_keys (read h properties)) in
          exec forEach
                 (pick_property properties (strip_namespace value))
                 keys then
          ret (RecordAt properties)
      end
  end.

End Pick.

Arguments read {C}.
Arguments picked {C}.
Arguments pick_property {C}.
Arguments pick {C}.

(** ** The schema [dispatch(keyName, v => record(pick(v, cases)))] *)

Section DispatchPick.
Variable C : Type.
Variable checker_at : C -> JsonChecker (Heap C).
Variable localize : string -> list LocaleParam -> string.
Variable localeQuote : string -> string.
Variable expectation :
  JsonChecker (Heap C) -> JsonCheckerContext -> Heap C ->
  option (list JsonExpectation).

(** A property of a record object, its checker being the one that
    [checker_at] gives. *)
Definition property_at (p : CheckerProperty C)
  : CheckerProperty (JsonChecker (Heap C)) :=
  match p with
  | Bare l => Bare (checker_at l)
  | Complex cp =>
      Complex {| cp_checker := checker_at (cp_checker cp);
                 cp_opt := cp_opt cp;
                 cp_deprecated := cp_deprecated cp;
                 cp_context := cp_context cp |}
  end.

(** [record(r)] for the record [r] that [pick] has returned: the
    properties of a record object of the heap are read from the heap each
    time the checker asks for them. *)
Definition record_at (r : RecordValue C) (h : Heap C)
  : JsonChecker (Heap C) :=
  match r with
  | NewRecord properties =>
      record localize localeQuote expectation
        (fun _ => map (fun e => (e.1, property_at e.2)) properties) h
  | RecordAt properties =>
      record localize localeQuote expectation
        (fun h' => map (fun e => (e.1, property_at e.2)) (read h' properties))
        h
  end.

Definition dispatch_pick (keyName : string) (cases : JsRecord Ref)
  : JsonChecker (Heap C) :=
  dispatch localize keyName
    (fun v _ => let* r := pick v cases in gets (record_at r)).

End DispatchPick.

Arguments property_at {C}.
Arguments record_at {C}.
Arguments dispatch_pick {C}.

(** ** Definitions that the statements use *)

(** The required keys that the node does not give: the schema keys, in
    schema order, whose spec is neither optional nor deprecated and that are
    not among the given keys. *)
Definition missing_keys {S : Type} (keys : list string)
    (values : string -> S -> CheckerProperty (JsonChecker S))
    (children : PairNodes) (s : S) : list string :=
  List.filter
    (fun k => negb (is_optional (values k s)) &&
              negb (given (given_keys children) k))
    keys.

(** The first child pair whose key equals [keyName]. *)
Fixpoint first_pair_with_key (keyName : string) (children : PairNodes)
  : option (PairNode JsonStringNode JsonNode) :=
  match children with
  | [] => None
  | p :: children' =>
      match key p with
      | Some k =>
          if String.eqb (string_value k) keyName then Some p
          else first_pair_with_key keyName children'
      | None => first_pair_with_key keyName children'
      end
  end.

(** The discriminant in the words of the design document: the string value
    of that pair if its value is a string node, undefined otherwise. *)
Definition discriminant_of (keyName : string) (children : PairNodes)
  : option string :=
  match first_pair_with_key keyName children with
  | Some p =>
      match value p with
      | Some (StringNode n) => Some (string_value n)
      | _ => None
      end
  | None => None
  end.

(** A node with its two writable slots cleared, all the way down: what the
    parser produced. *)
Definition erase_slots (slots : AstSlots) : AstSlots :=
  {| node_range := node_range slots;
     expectation_slot := None;
     hover := None |}.

Definition erase_string (k : JsonStringNode) : JsonStringNode :=
  {| string_slots := erase_slots (string_slots k);
     string_value := string_value k |}.

Fixpoint erase (node : JsonNode) : JsonNode :=
  match node with
  | ObjectNode slots children =>
      ObjectNode (erase_slots slots)
        (map (fun p =>
                {| key := match key p with
                          | Some k => Some (erase_string k)
                          | None => None
                          end;
                   value := match value p with
                            | Some v => Some (erase v)
                            | None => None
                            end |})
           children)
  | StringNode k => StringNode (erase_string k)
  | OtherNode kind slots items =>
      OtherNode kind (erase_slots slots) (map erase items)
  end.

Definition erase_pair (p : PairNode JsonStringNode JsonNode)
  : PairNode JsonStringNode JsonNode :=
  {| key := erase_string <$> key p; value := erase <$> value p |}.

(** The hover text of the key reached by [path] from [node]. *)
Fixpoint hover_at (path : list string) (node : JsonNode) : option string :=
  match path, node with
  | [name], ObjectNode _ children =>
      p ← first_pair_with_key name children;
      k ← key p;
      hover (string_slots k)
  | name :: path', ObjectNode _ children =>
      p ← first_pair_with_key name children;
      v ← value p;
      hover_at path' v
  | _, _ => None
  end.

Section Built.
Variable S : Type.
Variable localize : string -> list LocaleParam -> string.
Variable localeQuote : string -> string.
Variable expectation :
  JsonChecker S -> JsonCheckerContext -> S -> option (list JsonExpectation).

(** The slots of an object node after lines 29-45. *)
Definition expected_slots (schema : ObjectSchema S) (slots : AstSlots)
    (ctx : JsonCheckerContext) (s : S) : AstSlots :=
  {| node_range := node_range slots;
     expectation_slot := Some (object_expectation expectation schema ctx s);
     hover := hover slots |}.

(** The call of line 72 for the pair [prop] whose spec is [spec]. *)
Definition property_call (ctx : JsonCheckerContext) (spec : Property S)
    (prop : PairNode JsonStringNode JsonNode) (k : JsonStringNode) (s : S)
  : Outcome S JsonNode :=
  checker_of spec (default null_placeholder (value prop))
    (with_context ctx (property_context ctx spec (string_value k))) s.

(** The pair after lines 72-73. *)
Definition checked_pair (ctx : JsonCheckerContext) (spec : Property S)
    (prop : PairNode JsonStringNode JsonNode) (k : JsonStringNode) (s : S)
  : PairNode JsonStringNode JsonNode :=
  let context := property_context ctx spec (string_value k) in
  {| key :=
       Some (set_hover k
               (hover_text context (result (property_call ctx spec prop k s))
                  (localize ("json.doc." ++ context) [])));
     value := (fun _ => result (property_call ctx spec prop k s))
              <$> value prop |}.

(** What the loop of lines 60-75 reports for one pair, the reports of the
    property's checker left out. *)
Definition own_reports (keys : list string)
    (values : string -> S -> Property S) (s : S)
    (prop : PairNode JsonStringNode JsonNode) : list LanguageError :=
  match key prop with
  | None => []
  | Some k =>
      if includes keys (string_value k)
      then if is_deprecated (values (string_value k) s)
           then [deprecated_property localize localeQuote k]
           else []
      else [unknown_property localize localeQuote k]
  end.

(** A schema whose property checkers report nothing and leave the captured
    state as it is. *)
Definition silent_properties (values : string -> S -> Property S) : Prop :=
  forall k s node ctx s',
    reports (checker_of (values k s) node ctx s') = [] /\
    state (checker_of (values k s) node ctx s') = s'.

(** Running the checker again on the node it has decorated, from the same
    captured state, repeats the first run; and a run rewrites slots only. *)
Definition rerun_stable (c : JsonChecker S) : Prop :=
  forall node ctx s,
    erase (result (c node ctx s)) = erase node /\
    c (result (c node ctx s)) ctx s = c node ctx s.

(** A selector that does not read the slots of the children. *)
Definition shape_only
    (values : option string -> PairNodes -> Eff S (JsonChecker S)) : Prop :=
  forall v children children' s,
    map erase_pair children = map erase_pair children' ->
    values v children s = values v children' s.

(** The checkers built from the combinators over leaf checkers that are
    stable under a second run.  [record] is an instance of [object]. *)
Inductive built : JsonChecker S -> Prop :=
| built_leaf c : rerun_stable c -> built c
| built_any : built (object localize localeQuote expectation AnyObject)
| built_fixed keys values :
    (forall k s, built (checker_of (values k s))) ->
    built (object localize localeQuote expectation (FixedKeys keys values))
| built_dynamic keys values :
    built keys ->
    (forall k s, built (checker_of (values k s))) ->
    built (object localize localeQuote expectation (DynamicKeys keys values))
| built_dispatch keyName values :
    shape_only values ->
    (forall v children s, built (result (values v children s))) ->
    built (dispatch localize keyName values).
End Built.

Arguments expected_slots {S}.
Arguments property_call {S}.
Arguments checked_pair {S}.
Arguments own_reports {S}.
Arguments silent_properties {S}.
Arguments rerun_stable {S}.
Arguments shape_only {S}.
Arguments built {S}.

(** ** Sample instances, for the examples *)

Definition render_param (p : LocaleParam) : string :=
  match p with
  | ParamText text => text
  | ParamList items => join ", " items
  end.

(** A message catalogue without documentation entries: a message is its key
    followed by its parameters. *)
Definition sample_localize (key : string) (params : list LocaleParam)
  : string :=
  if String.prefix "json.doc." key then EmptyString
  else key ++ "(" ++ join "; " (map render_param params) ++ ")".

Definition sample_quote (text : string) : string := "'" ++ text ++ "'".

(** Modelled from the spec: [expectation] of [./util] invokes the checker
    only to harvest its expectation, at deeper nesting and without its
    diagnostics reaching the sink. *)
Definition harvest {S : Type} (c : JsonChecker S) (ctx : JsonCheckerContext)
    (s : S) : option (list JsonExpectation) :=
  expectation_slot
    (slots_of
       (result
          (c null_placeholder
             {| depth := Some (default 0 (depth ctx) + 1);
                context := context ctx |} s))).

(** Two leaf checkers: one accepts any node, one expects a string. *)
Inductive Leaf : Type := AnyValue | StringValue.

Definition leaf_checker {S : Type} (l : Leaf) : JsonChecker S :=
  match l with
  | AnyValue => fun node _ => ret node
  | StringValue =>
      fun node _ =>
        let node :=
          set_expectation node [Expectation "json:string" "String" None None] in
        match node with
        | StringNode _ => ret node
        | _ =>
            exec err_report
                   (report
                      (sample_localize "expected"
                         [ParamText (sample_localize "string" [])])
                      (node_range (slots_of node)) None None) then
            ret node
        end
  end.

Definition lift_property {S : Type} (p : CheckerProperty Leaf)
  : CheckerProperty (JsonChecker S) :=
  match p with
  | Bare l => Bare (leaf_checker l)
  | Complex cp =>
      Complex {| cp_checker := leaf_checker (cp_checker cp);
                 cp_opt := cp_opt cp;
                 cp_deprecated := cp_deprecated cp;
                 cp_context := cp_context cp |}
  end.

(** The record object at [r], as the checkers of a schema read it. *)
Definition stored (r : Ref) (h : Heap Leaf)
  : CheckerRecord (JsonChecker (Heap Leaf)) :=
  map (fun e => (e.1, lift_property e.2)) (read h r).

Definition sample_object {S : Type} : ObjectSchema S -> JsonChecker S :=
  object sample_localize sample_quote harvest.

Definition sample_record {S : Type}
  : (S -> CheckerRecord (JsonChecker S)) -> S -> JsonChecker S :=
  record sample_localize sample_quote harvest.

(** [record(r)] for the record that a function has returned. *)
Definition record_of (r : RecordValue Leaf) (h : Heap Leaf)
  : JsonChecker (Heap Leaf) :=
  match r with
  | NewRecord properties =>
      sample_record
        (fun _ => map (fun e => (e.1, lift_property e.2)) properties) h
  | RecordAt properties => sample_record (stored properties) h
  end.

(** The schema
    [const shared = { x: any }]
    [record({ a: record(shared),
              b: dispatch('type', v => record(pick(v, { foo: shared }))) })]
    with [shared] the record object at reference 0. *)
Definition shared : Ref := 0%nat.

Definition shared_heap : Heap Leaf := {[ shared := [("x", Bare AnyValue)] ]}.

Definition by_type (v : option string) (_ : PairNodes)
  : Eff (Heap Leaf) (JsonChecker (Heap Leaf)) :=
  let* r := pick v [("foo", shared)] in
  gets (record_of r).

Definition shared_schema (h : Heap Leaf) : JsonChecker (Heap Leaf) :=
  sample_record
    (fun _ =>
       [("a", Bare (sample_record (stored shared) h));
        ("b", Bare (dispatch sample_localize "type" by_type))])
    h.

Definition slots_at (start end_ : Z) : AstSlots :=
  {| node_range := {| Range.start := start; Range.end_ := end_ |};
     expectation_slot := None;
     hover := None |}.

Definition string_at (start end_ : Z) (text : string) : JsonStringNode :=
  {| string_slots := slots_at start end_; string_value := text |}.

Definition pair_at (k : JsonStringNode) (v : JsonNode)
  : PairNode JsonStringNode JsonNode :=
  {| key := Some k; value := Some v |}.

(** [{"a": {"x": "v"}, "b": {"type": "foo"}}] as the parser delivers it. *)
Definition shared_tree : JsonNode :=
  ObjectNode (slots_at 0 40)
    [pair_at (string_at 1 4 "a")
       (ObjectNode (slots_at 6 16)
          [pair_at (string_at 7 10 "x") (StringNode (string_at 12 15 "v"))]);
     pair_at (string_at 18 21 "b")
       (ObjectNode (slots_at 23 39)
          [pair_at (string_at 24 30 "type")
             (StringNode (string_at 32 37 "foo"))])].

Definition root_context : JsonCheckerContext :=
  {| depth := None; context := "root" |}.

(** The schema [record({ a: any, b: opt(string), d: string,
    e: deprecated(any) })] and the node [{"a": "v", "c", "e": "w"}], whose
    pair [c] has no value. *)
Definition sample_properties : CheckerRecord (JsonChecker unit) :=
  [("a", Bare (leaf_checker AnyValue));
   ("b", Complex (opt (leaf_checker StringValue)));
   ("d", Bare (leaf_checker StringValue));
   ("e", Complex (deprecated (leaf_checker AnyValue)))].

Definition sample_keys : list string := Object_keys sample_properties.

Definition sample_values : string -> unit -> Property unit :=
  fun key _ => default (Bare no_checker) (get_property sample_properties key).

Definition key_a : JsonStringNode := string_at 1 4 "a".
Definition key_c : JsonStringNode := string_at 11 14 "c".
Definition key_e : JsonStringNode := string_at 16 19 "e".

Definition pair_a : PairNode JsonStringNode JsonNode :=
  pair_at key_a (StringNode (string_at 6 9 "v")).

Definition pair_c : PairNode JsonStringNode JsonNode :=
  {| key := Some key_c; value := None |}.

Definition pair_e : PairNode JsonStringNode JsonNode :=
  pair_at key_e (StringNode (string_at 21 24 "w")).

Definition sample_node : JsonNode :=
  ObjectNode (slots_at 0 26) [pair_a; pair_c; pair_e].

(** A schema all of whose properties are objects. *)
Definition nested_values : string -> unit -> Property unit :=
  fun _ _ => Bare (sample_object AnyObject).

(** Case tables for [having]: the node gives [a] and [e], not [x] or [y]. *)
Definition absent_cases : JsRecord (Case unit Leaf) :=
  [("x", Direct [("x", Bare AnyValue); ("n", Bare StringValue)]);
   ("y", Producer (ret [("y", Complex (opt StringValue))]))].

Definition present_cases : JsRecord (Case unit Leaf) :=
  [("x", Direct [("x", Bare AnyValue)]);
   ("a", Producer (ret [("a", Bare StringValue)]));
   ("e", Direct [("e", Bare AnyValue)])].

Definition one_present_cases : JsRecord (Case unit Leaf) :=
  [("x", Direct [("x", Bare AnyValue)]);
   ("a", Producer (ret [("a", Bare StringValue)]))].

(** A producer that reports before it returns its record. *)
Definition producer_report : LanguageError :=
  report "from the producer"
    {| Range.start := 0; Range.end_ := 0 |} (Some ErrorSeverity.Warning) None.

Definition reporting_producer : Case unit Leaf :=
  Producer
    (exec err_report producer_report then ret [("a", Bare StringValue)]).

Definition reporting_absent_cases : JsRecord (Case unit Leaf) :=
  [("x", Direct [("x", Bare AnyValue)]); ("y", reporting_producer)].

Definition reporting_present_cases : JsRecord (Case unit Leaf) :=
  [("x", Direct [("x", Bare AnyValue)]); ("a", reporting_producer)].

(** The case table [{ b: ..., 1: ... }] as declared, and the node
    [{"b": "v", "1": "w"}]. *)
Definition declared_cases : list (string * Case unit Leaf) :=
  [("b", Direct [("b", Bare AnyValue)]);
   ("1", Direct [("1", Bare StringValue)])].

Definition node_b_1 : JsonNode :=
  ObjectNode (slots_at 0 22)
    [pair_at (string_at 1 4 "b") (StringNode (string_at 6 9 "v"));
     pair_at (string_at 11 14 "1") (StringNode (string_at 16 19 "w"))].

(** A selector that ignores the discriminant. *)
Definition any_object_selector (_ : option string) (_ : PairNodes)
  : Eff unit (JsonChecker unit) :=
  ret (sample_object AnyObject).

(** ** Definitions for the further properties *)

(** A checker that reports nothing. *)
Definition silent {S : Type} (c : JsonChecker S) : Prop :=
  forall node ctx s, reports (c node ctx s) = [].

(** A checker that leaves the captured state as it is. *)
Definition preserves_state {S : Type} (c : JsonChecker S) : Prop :=
  forall node ctx s, state (c node ctx s) = s.

(** What is left of a key when its hover text is put aside. *)
Definition key_frame (k : JsonStringNode)
  : Range.t * option (list JsonExpectation) * string :=
  (node_range (string_slots k), expectation_slot (string_slots k),
   string_value k).

(** What is left of a pair when the hover text of its key and the slots
    below its value are put aside: the key, and whether there is a value. *)
Definition pair_frame (p : PairNode JsonStringNode JsonNode)
  : option (Range.t * option (list JsonExpectation) * string) * bool :=
  (key_frame <$> key p,
   match value p with Some _ => true | None => false end).

(** The object checker whose keys are strings and whose values are strings,
    [object(string, () => string)]. *)
Definition string_map : JsonChecker unit :=
  sample_object
    (DynamicKeys (leaf_checker StringValue)
       (fun _ _ => Bare (leaf_checker StringValue))).

(** [{"a": "v", "d": {}}], the second value being an object. *)
Definition mixed_node : JsonNode :=
  ObjectNode (slots_at 0 20)
    [pair_a;
     pair_at (string_at 11 14 "d") (ObjectNode (slots_at 16 18) [])].

(** [{"type": 1, "type": "foo"}]: the key [type] twice, first with a
    number. *)
Definition number_then_string : PairNodes :=
  [pair_at (string_at 1 7 "type") (OtherNode JsonNumber (slots_at 9 10) []);
   pair_at (string_at 12 18 "type") (StringNode (string_at 20 25 "foo"))].

(** A context past the depth guard. *)
Definition deep_context : JsonCheckerContext :=
  {| depth := Some 1; context := "root" |}.

(** A case whose evaluation reports nothing and leaves the state alone, as
    that of a record given directly does. *)
Definition quiet_case {S C : Type} (c : Case S C) : Prop :=
  forall s, state (force c s) = s /\ reports (force c s) = [].

(** [(_, children) => children.some(p => p.key?.hover)
       ? record({ a: any, z: any }) : record({ a: any })],
    a selector that reads the hover slot of the keys. *)
Definition hover_reading_selector (_ : option string) (children : PairNodes)
  : Eff unit (JsonChecker unit) :=
  if existsb
       (fun p =>
          match key p with
          | Some k =>
              match hover (string_slots k) with
              | Some (String _ _) => true
              | _ => false
              end
          | None => false
          end)
       children
  then ret (sample_record
              (fun _ => [("a", Bare (leaf_checker AnyValue));
                         ("z", Bare (leaf_checker AnyValue))]) tt)
  else ret (sample_record (fun _ => [("a", Bare (leaf_checker AnyValue))]) tt).

(** [{"a": "v"}]. *)
Definition node_a : JsonNode := ObjectNode (slots_at 0 11) [pair_a].

(** The record [{ b: any, 1: string }] as declared. *)
Definition declared_properties
  : list (string * CheckerProperty (JsonChecker unit)) :=
  [("b", Bare (leaf_checker AnyValue)); ("1", Bare (leaf_checker StringValue))].

(** The schema
    [record({ b: dispatch('type', v => record(pick(v, { foo: shared }))) })]
    and the node [{"b": {"type": "foo"}}]. *)
Definition picking_schema (h : Heap Leaf) : JsonChecker (Heap Leaf) :=
  sample_record
    (fun _ => [("b", Bare (dispatch sample_localize "type" by_type))]) h.

Definition picking_tree : JsonNode :=
  ObjectNode (slots_at 17 40)
    [pair_at (string_at 18 21 "b")
       (ObjectNode (slots_at 23 39)
          [pair_at (string_at 24 30 "type")
             (StringNode (string_at 32 37 "foo"))])].

(** A leaf checker that reads the expectation slot: it reports on a node
    that carries an expectation already, and writes one otherwise. *)
Definition slot_reading_leaf : JsonChecker unit :=
  fun node _ =>
    match expectation_slot (slots_of node) with
    | Some _ =>
        exec err_report
               (report (sample_localize "checked" [])
                  (node_range (slots_of node)) None None) then
        ret node
    | None =>
        ret (set_expectation node
               [Expectation "json:string" "String" None None])
    end.

(** * Properties *)

Local Open Scope list_scope.

(** ** The loops *)

Lemma outcome_eq {S A : Type} (o : Outcome S A) :
  {| result := result o; state := state o; reports := reports o |} = o.
Proof. destruct o; reflexivity. Qed.

Lemma forEach_update_cons {S A : Type} (f : A -> Eff S A) x items s :
  forEach_update f (x :: items) s =
  {| result := result (f x s)
               :: result (forEach_update f items (state (f x s)));
     state := state (forEach_update f items (state (f x s)));
     reports := reports (f x s)
                ++ reports (forEach_update f items (state (f x s))) |}.
Proof.
  cbn [forEach_update]. unfold bind, ret. cbn.
  rewrite app_nil_r. reflexivity.
Qed.

Lemma forEach_update_app {S A : Type} (f : A -> Eff S A) pre post s :
  forEach_update f (pre ++ post) s =
  {| result := result (forEach_update f pre s)
               ++ result (forEach_update f post
                            (state (forEach_update f pre s)));
     state := state (forEach_update f post (state (forEach_update f pre s)));
     reports := reports (forEach_update f pre s)
                ++ reports (forEach_update f post
                              (state (forEach_update f pre s))) |}.
Proof.
  revert s. induction pre as [|x pre IH]; intros s.
  - cbn. symmetry. apply outcome_eq.
  - rewrite <- app_comm_cons, !forEach_update_cons, IH. cbn.
    rewrite app_assoc. reflexivity.
Qed.

Lemma includes_In keys k : includes keys k = true <-> In k keys.
Proof.
  unfold includes. rewrite existsb_exists. split.
  - intros (x & Hin & Heq). apply String.eqb_eq in Heq. subst. exact Hin.
  - intros Hin. exists k. split; [exact Hin | apply String.eqb_refl].
Qed.

Lemma given_In givenKeys k : given givenKeys k = true <-> In (Some k) givenKeys.
Proof.
  unfold given. rewrite existsb_exists. split.
  - intros ([g|] & Hin & Heq); [|discriminate].
    apply String.eqb_eq in Heq. subst. exact Hin.
  - intros Hin. exists (Some k). split; [exact Hin | apply String.eqb_refl].
Qed.

Lemma given_Permutation l l' k :
  Permutation l l' -> given l k = given l' k.
Proof.
  intros HP. apply eq_true_iff_eq. rewrite !given_In.
  split; intros Hin.
  - eapply Permutation_in; eassumption.
  - eapply Permutation_in; [symmetry|]; eassumption.
Qed.

Lemma filter_Permutation {A : Type} (f : A -> bool) l l' :
  Permutation l l' -> Permutation (List.filter f l) (List.filter f l').
Proof.
  induction 1 as [|x l l' _ IH|x y l|l l' l'' _ IH1 _ IH2]; cbn.
  - constructor.
  - destruct (f x); [constructor|]; exact IH.
  - destruct (f x), (f y); try reflexivity. constructor.
  - etransitivity; eassumption.
Qed.

(** ** Records *)

Lemma get_set_property {V : Type} (o : JsRecord V) k v key :
  get_property (set_property o k v) key =
  if String.eqb k key then Some v else get_property o key.
Proof.
  induction o as [|[k' v'] o IH]; cbn.
  - destruct (String.eqb k key); reflexivity.
  - destruct (String.eqb k' k) eqn:Hk'; cbn.
    + apply String.eqb_eq in Hk'. subst k'.
      destruct (String.eqb k key); reflexivity.
    + rewrite IH. destruct (String.eqb k' key) eqn:Hkey; [|reflexivity].
      apply String.eqb_eq in Hkey. subst k'. rewrite String.eqb_sym, Hk'.
      reflexivity.
Qed.

Lemma get_property_In {V : Type} (o : JsRecord V) k :
  In k (Object_keys o) <-> exists v, get_property o k = Some v.
Proof.
  unfold Object_keys. induction o as [|[k' v'] o IH]; cbn.
  - split; [tauto|intros [v Hv]; discriminate].
  - destruct (String.eqb k' k) eqn:Hk.
    + apply String.eqb_eq in Hk. split; [eauto|auto].
    + apply String.eqb_neq in Hk. rewrite <- IH. tauto.
Qed.

Lemma get_property_None {V : Type} (o : JsRecord V) k :
  ~ In k (Object_keys o) -> get_property o k = None.
Proof.
  intros Hnot. destruct (get_property o k) as [v|] eqn:Hget; [|reflexivity].
  exfalso. apply Hnot, get_property_In. eauto.
Qed.

Lemma keys_set_property {V : Type} (o : JsRecord V) k v :
  In k (Object_keys o) -> Object_keys (set_property o k v) = Object_keys o.
Proof.
  unfold Object_keys. induction o as [|[k' v'] o IH]; cbn; [tauto|].
  intros Hin. destruct (String.eqb k' k) eqn:Hk; cbn; [reflexivity|].
  apply String.eqb_neq in Hk. f_equal. apply IH. tauto.
Qed.

Lemma set_property_fresh {V : Type} (o : JsRecord V) k v :
  ~ In k (Object_keys o) -> set_property o k v = o ++ [(k, v)].
Proof.
  unfold Object_keys. induction o as [|[k' v'] o IH]; cbn; [reflexivity|].
  intros Hnot. destruct (String.eqb k' k) eqn:Hk.
  - apply String.eqb_eq in Hk. tauto.
  - f_equal. apply IH. tauto.
Qed.

Lemma get_property_middle {V : Type} (pre post : JsRecord V) k v :
  ~ In k (Object_keys pre) -> get_property (pre ++ (k, v) :: post) k = Some v.
Proof.
  unfold Object_keys. induction pre as [|[k' v'] pre IH]; cbn.
  - rewrite String.eqb_refl. reflexivity.
  - intros Hnot. destruct (String.eqb k' k) eqn:Hk.
    + apply String.eqb_eq in Hk. tauto.
    + apply IH. tauto.
Qed.

Lemma get_property_split {V : Type} (o : JsRecord V) k v :
  get_property o k = Some v ->
  exists pre post, o = pre ++ (k, v) :: post /\ ~ In k (Object_keys pre).
Proof.
  unfold Object_keys. induction o as [|[k' v'] o IH]; cbn; [discriminate|].
  destruct (String.eqb k' k) eqn:Hk.
  - apply String.eqb_eq in Hk. subst k'. intros [= ->].
    exists [], o. split; [reflexivity|tauto].
  - apply String.eqb_neq in Hk. intros Hget.
    destruct (IH Hget) as (pre & post & -> & Hnot).
    exists ((k', v') :: pre), post. split; [reflexivity|].
    cbn. tauto.
Qed.

Lemma fromEntries_from {V : Type} (entries acc : list (string * V)) :
  List.NoDup (Object_keys (acc ++ entries)) ->
  fold_left (fun o e => set_property o e.1 e.2) entries acc = acc ++ entries.
Proof.
  revert acc. induction entries as [|[k v] entries IH]; intros acc Hnodup.
  - cbn. rewrite app_nil_r. reflexivity.
  - cbn [fold_left fst snd].
    assert (Hfresh : ~ In k (Object_keys acc)).
    { unfold Object_keys in *. rewrite fmap_app in Hnodup. cbn in Hnodup.
      apply List.NoDup_remove_2 in Hnodup. rewrite in_app_iff in Hnodup.
      tauto. }
    rewrite set_property_fresh by exact Hfresh.
    rewrite IH; rewrite <- app_assoc; [reflexivity|exact Hnodup].
Qed.

Lemma fromEntries_NoDup {V : Type} (entries : list (string * V)) :
  List.NoDup (Object_keys entries) -> Object_fromEntries entries = entries.
Proof. intros Hnodup. apply (fromEntries_from entries []), Hnodup. Qed.

Lemma keys_set_property_subset {V : Type} (o : JsRecord V) k v k' :
  In k' (Object_keys (set_property o k v)) -> k' = k \/ In k' (Object_keys o).
Proof.
  unfold Object_keys. induction o as [|[k0 v0] o IH]; cbn.
  - intros [<-|[]]. left. reflexivity.
  - destruct (String.eqb k0 k); cbn; [intros [<-|Hin]; auto|].
    intros [<-|Hin]; [auto|]. destruct (IH Hin); auto.
Qed.

Lemma keys_fromEntries_from {V : Type} (entries acc : list (string * V)) k :
  In k (Object_keys (fold_left (fun o e => set_property o e.1 e.2) entries acc))
  -> In k (Object_keys acc) \/ In k (Object_keys entries).
Proof.
  revert acc. induction entries as [|[k' v] entries IH]; intros acc Hin.
  - left. exact Hin.
  - cbn [fold_left fst snd] in Hin. destruct (IH _ Hin) as [Hacc|Hrest].
    + destruct (keys_set_property_subset _ _ _ _ Hacc) as [->|Hacc'].
      * right. left. reflexivity.
      * left. exact Hacc'.
    + right. right. exact Hrest.
Qed.

Lemma indexed_entries_named {V : Type} (o : list (string * V)) :
  Forall (fun e => array_index e.1 = None) o -> indexed_entries o = [].
Proof.
  induction 1 as [|e o He _ IH]; [reflexivity|].
  cbn. rewrite He. exact IH.
Qed.

Lemma named_entries_named {V : Type} (o : list (string * V)) :
  Forall (fun e => array_index e.1 = None) o -> named_entries o = o.
Proof.
  induction 1 as [|e o He _ IH]; [reflexivity|].
  unfold named_entries in *. cbn. rewrite He, IH. reflexivity.
Qed.

Lemma fromEntries_keys_declared {V : Type} (declared : list (string * V))
    (P : string -> Prop) :
  Forall (fun e => P e.1) declared ->
  Forall (fun e => P e.1) (Object_fromEntries declared).
Proof.
  intros Hall. apply List.Forall_forall. intros [k v] Hin.
  assert (Hk : In k (Object_keys (Object_fromEntries declared))).
  { unfold Object_keys. apply (in_map fst) in Hin. exact Hin. }
  apply keys_fromEntries_from in Hk. destruct Hk as [[]|Hk].
  unfold Object_keys in Hk. apply in_map_iff in Hk.
  destruct Hk as (e & <- & He).
  exact (proj1 (List.Forall_forall _ _) Hall e He).
Qed.

Lemma Object_literal_named {V : Type} (declared : list (string * V)) :
  Forall (fun e => array_index e.1 = None) declared ->
  Object_literal declared = Object_fromEntries declared.
Proof.
  intros Hnamed. unfold Object_literal.
  pose proof (fromEntries_keys_declared declared
                (fun k => array_index k = None) Hnamed) as Hcreated.
  rewrite (indexed_entries_named _ Hcreated).
  rewrite (named_entries_named _ Hcreated). reflexivity.
Qed.

Lemma insert_by_index_sorted {V : Type} n (e : string * V) sorted :
  Sorted by_index sorted -> Sorted by_index (insert_by_index n e sorted).
Proof.
  induction 1 as [|[m e'] sorted Hsorted IH Hhd]; cbn.
  - repeat constructor.
  - destruct (N.ltb_spec n m) as [Hlt|Hge].
    + constructor; [constructor; assumption|].
      constructor. unfold by_index. cbn. lia.
    + constructor; [exact IH|].
      destruct sorted as [|[m' e''] sorted']; cbn.
      * constructor. unfold by_index. cbn. lia.
      * destruct (N.ltb_spec n m').
        -- constructor. unfold by_index. cbn. lia.
        -- constructor. inversion Hhd; subst. assumption.
Qed.

Lemma indexed_entries_sorted {V : Type} (o : list (string * V)) :
  Sorted by_index (indexed_entries o).
Proof.
  induction o as [|e o IH]; cbn; [constructor|].
  destruct (array_index e.1); [apply insert_by_index_sorted|]; exact IH.
Qed.

Lemma insert_by_index_Permutation {V : Type} n (e : string * V) sorted :
  Permutation (insert_by_index n e sorted) ((n, e) :: sorted).
Proof.
  induction sorted as [|[m e'] sorted IH]; cbn; [reflexivity|].
  destruct (n <? m)%N; [reflexivity|].
  rewrite IH. apply perm_swap.
Qed.

Lemma indexed_entries_own {V : Type} (o : list (string * V)) :
  Forall (fun x => array_index x.2.1 = Some x.1) (indexed_entries o).
Proof.
  induction o as [|e o IH]; cbn; [constructor|].
  destruct (array_index e.1) as [n|] eqn:He; [|exact IH].
  rewrite (insert_by_index_Permutation n e (indexed_entries o)).
  constructor; [exact He|exact IH].
Qed.

Lemma Object_literal_Permutation {V : Type} (declared : list (string * V)) :
  Permutation (Object_literal declared) (Object_fromEntries declared).
Proof.
  unfold Object_literal. generalize (Object_fromEntries declared) as o.
  induction o as [|e o IH]; [reflexivity|].
  unfold named_entries in *. cbn.
  destruct (array_index e.1) as [n|].
  - rewrite insert_by_index_Permutation. cbn. constructor. exact IH.
  - rewrite <- Permutation_middle. constructor. exact IH.
Qed.


Lemma find_first_given givenKeys (pre post : list string) k :
  given givenKeys k = true ->
  (forall k', In k' pre -> given givenKeys k' = false) ->
  List.find (given givenKeys) (pre ++ k :: post) = Some k.
Proof.
  intros Hk. induction pre as [|k' pre IH]; cbn; intros Hpre.
  - rewrite Hk. reflexivity.
  - rewrite (Hpre k') by tauto. apply IH. intros k'' Hin. apply Hpre. tauto.
Qed.

Section Properties.
Variable S : Type.
Variable localize : string -> list LocaleParam -> string.
Variable localeQuote : string -> string.
Variable expectation :
  JsonChecker S -> JsonCheckerContext -> S -> option (list JsonExpectation).

Abbreviation object := (object localize localeQuote expectation).
Abbreviation check_property := (check_property localize localeQuote).
Abbreviation missing_property := (missing_property localize localeQuote).
Abbreviation unknown_property := (unknown_property localize localeQuote).
Abbreviation deprecated_property := (deprecated_property localize localeQuote).
Abbreviation expected_object := (expected_object localize).
Abbreviation expected_slots := (expected_slots expectation).
Abbreviation checked_pair := (checked_pair localize).
Abbreviation own_reports := (own_reports localize localeQuote).

Implicit Types (values : string -> S -> Property S).
Implicit Types (ctx : JsonCheckerContext) (s : S).

Lemma check_missing_outcome values givenKeys at_ k s :
  check_missing localize localeQuote values givenKeys at_ k s =
  {| result := tt;
     state := s;
     reports :=
       if negb (is_optional (values k s)) && negb (given givenKeys k)
       then [missing_property at_ k] else [] |}.
Proof.
  unfold check_missing, bind, gets. cbn.
  destruct (is_optional (values k s)); cbn; [reflexivity|].
  destruct (given givenKeys k); reflexivity.
Qed.

Lemma forEach_check_missing values givenKeys at_ keys s :
  forEach (check_missing localize localeQuote values givenKeys at_) keys s =
  {| result := tt;
     state := s;
     reports :=
       map (missing_property at_)
         (List.filter
            (fun k => negb (is_optional (values k s)) &&
                      negb (given givenKeys k)) keys) |}.
Proof.
  induction keys as [|k keys IH]; [reflexivity|].
  cbn [forEach List.filter]. unfold bind.
  rewrite check_missing_outcome. cbn [state result reports]. rewrite IH.
  cbn [state result reports].
  destruct (negb (is_optional (values k s)) && negb (given givenKeys k));
    reflexivity.
Qed.

Lemma object_fixed keys values slots children ctx s :
  object (FixedKeys keys values) (ObjectNode slots children) ctx s =
  let rest := forEach_update (check_property keys values ctx) children s in
  {| result :=
       ObjectNode (expected_slots (FixedKeys keys values) slots ctx s)
         (result rest);
     state := state rest;
     reports :=
       map (missing_property (node_range slots))
         (missing_keys keys values children s)
       ++ reports rest |}.
Proof.
  unfold object, bind, gets. cbn.
  rewrite forEach_check_missing. cbn. rewrite app_nil_r. reflexivity.
Qed.

Lemma check_property_unknown keys values ctx prop k s :
  key prop = Some k ->
  includes keys (string_value k) = false ->
  check_property keys values ctx prop s =
  {| result := prop; state := s; reports := [unknown_property k] |}.
Proof.
  intros Hk Hin. unfold check_property. rewrite Hk, Hin.
  reflexivity.
Qed.

Lemma check_property_declared keys values ctx prop k s :
  key prop = Some k ->
  includes keys (string_value k) = true ->
  check_property keys values ctx prop s =
  let spec := values (string_value k) s in
  {| result := checked_pair ctx spec prop k s;
     state := state (property_call ctx spec prop k s);
     reports :=
       (if is_deprecated spec then [deprecated_property k] else [])
       ++ reports (property_call ctx spec prop k s) |}.
Proof.
  intros Hk Hin. unfold check_property. rewrite Hk, Hin. cbn.
  unfold bind, gets, property_call, checked_pair. cbn.
  rewrite app_nil_r.
  destruct (is_deprecated (values (string_value k) s)); reflexivity.
Qed.

Lemma object_fixed_split keys values slots pre prop post ctx s :
  object (FixedKeys keys values) (ObjectNode slots (pre ++ prop :: post))
    ctx s =
  let before := forEach_update (check_property keys values ctx) pre s in
  let here := check_property keys values ctx prop (state before) in
  let after :=
    forEach_update (check_property keys values ctx) post (state here) in
  {| result :=
       ObjectNode (expected_slots (FixedKeys keys values) slots ctx s)
         (result before ++ result here :: result after);
     state := state after;
     reports :=
       map (missing_property (node_range slots))
         (missing_keys keys values (pre ++ prop :: post) s)
       ++ reports before ++ reports here ++ reports after |}.
Proof.
  rewrite object_fixed, forEach_update_app, forEach_update_cons.
  cbn. rewrite <- ?app_assoc. reflexivity.
Qed.

Lemma missing_keys_spec keys values children s k :
  In k (missing_keys keys values children s) <->
  In k keys /\ is_optional (values k s) = false /\
  ~ In (Some k) (given_keys children).
Proof.
  unfold missing_keys. rewrite filter_In, andb_true_iff, !negb_true_iff.
  rewrite <- given_In, not_true_iff_false. tauto.
Qed.

Lemma given_keys_Permutation children children' :
  Permutation children children' ->
  Permutation (given_keys children) (given_keys children').
Proof. apply Permutation_map. Qed.

Lemma silent_forEach_update keys values ctx children s :
  silent_properties values ->
  state (forEach_update (check_property keys values ctx) children s) = s /\
  reports (forEach_update (check_property keys values ctx) children s) =
  flat_map (own_reports keys values s) children.
Proof.
  intros Hsilent. induction children as [|prop children [IHs IHr]].
  - split; reflexivity.
  - rewrite forEach_update_cons. cbn [state reports flat_map].
    assert (Hhere :
      state (check_property keys values ctx prop s) = s /\
      reports (check_property keys values ctx prop s) =
      own_reports keys values s prop).
    { unfold own_reports.
      destruct (key prop) as [k|] eqn:Hk.
      - destruct (includes keys (string_value k)) eqn:Hin.
        + rewrite (check_property_declared _ _ _ _ k) by assumption.
          cbn [state reports]. unfold property_call.
          destruct (Hsilent (string_value k) s
                      (default null_placeholder (value prop))
                      (with_context ctx
                         (property_context ctx (values (string_value k) s)
                            (string_value k))) s) as [Hr Hs].
          rewrite Hr, Hs, app_nil_r. split; reflexivity.
        + rewrite (check_property_unknown _ _ _ _ k) by assumption.
          split; reflexivity.
      - unfold check_property. rewrite Hk. split; reflexivity. }
    destruct Hhere as [Hs Hr]. rewrite Hs, Hr, IHs, IHr.
    split; reflexivity.
Qed.

(** C1. A fixed-key object checker applied to an object node first reports
    one missing-property diagnostic, at the one-character range at the
    start of the object, for each schema key whose spec is neither optional
    nor deprecated and that is not among the given keys, and nothing else
    before the per-pair loop: a key flagged optional or deprecated is never
    in that list, a schema key occurs in it once, the list does not depend
    on the order of the given keys, and reordering the schema keys only
    reorders it. *)
Theorem C1_missing_properties keys values slots children ctx s :
  reports
    (object (FixedKeys keys values) (ObjectNode slots children) ctx s) =
    map (missing_property (node_range slots))
      (missing_keys keys values children s)
    ++ reports
         (forEach_update (check_property keys values ctx) children s)
  /\ (forall k,
        In k (missing_keys keys values children s) <->
        In k keys /\ is_optional (values k s) = false /\
        ~ In (Some k) (given_keys children))
  /\ (forall k,
        is_optional (values k s) = true ->
        ~ In k (missing_keys keys values children s))
  /\ (forall k,
        missing_property (node_range slots) k =
        {| message :=
             localize "json.checker.property.missing"
               [ParamText (localeQuote k)];
           range :=
             {| Range.start := Range.start (node_range slots);
                Range.end_ := Range.start (node_range slots) + 1 |};
           severity := ErrorSeverity.Error;
           info := None |})
  /\ (List.NoDup keys ->
      forall k,
        In k keys -> is_optional (values k s) = false ->
        ~ In (Some k) (given_keys children) ->
        count_occ String.string_dec
          (missing_keys keys values children s) k = 1%nat)
  /\ (forall children',
        Permutation children children' ->
        missing_keys keys values children' s =
        missing_keys keys values children s)
  /\ (forall keys',
        Permutation keys keys' ->
        Permutation (missing_keys keys' values children s)
          (missing_keys keys values children s)).
Proof.
  split; [|split; [|split; [|split; [|split; [|split]]]]].
  - rewrite object_fixed. reflexivity.
  - intros k. apply missing_keys_spec.
  - intros k Hopt Hin. apply missing_keys_spec in Hin.
    destruct Hin as (_ & Hreq & _). congruence.
  - intros k. reflexivity.
  - intros Hnodup k Hin Hreq Habsent.
    apply List.NoDup_count_occ'.
    + unfold missing_keys. apply List.NoDup_filter. exact Hnodup.
    + apply missing_keys_spec. auto.
  - intros children' HP. unfold missing_keys.
    apply filter_ext. intros k. f_equal. f_equal.
    symmetry. apply given_Permutation, given_keys_Permutation, HP.
  - intros keys' HP. unfold missing_keys.
    apply filter_Permutation. symmetry. exact HP.
Qed.

(** C2. In a fixed-key object checker applied to an object node, a pair
    whose key is not a schema key contributes exactly one unknown-property
    diagnostic, of warning severity and anchored at the key node, between
    the reports of the pairs before it and those of the pairs after it; a
    pair whose key is a schema key contributes the deprecated-usage
    diagnostic, if any, and the reports of its property's checker, and no
    unknown-property diagnostic.  With property checkers that report
    nothing, the reports after the missing-property ones are the
    per-pair ones in input order. *)
Theorem C2_unknown_properties keys values slots pre prop post k ctx s :
  key prop = Some k ->
  let o :=
    object (FixedKeys keys values) (ObjectNode slots (pre ++ prop :: post))
      ctx s in
  let missing :=
    map (missing_property (node_range slots))
      (missing_keys keys values (pre ++ prop :: post) s) in
  let before := forEach_update (check_property keys values ctx) pre s in
  (includes keys (string_value k) = false ->
     let after :=
       forEach_update (check_property keys values ctx) post
         (state before) in
     reports o =
       missing ++ reports before ++ [unknown_property k] ++ reports after
     /\ unknown_property k =
        {| message :=
             localize "json.checker.property.unknown"
               [ParamText (localeQuote (string_value k))];
           range := node_range (string_slots k);
           severity := ErrorSeverity.Warning;
           info := None |})
  /\ (includes keys (string_value k) = true ->
      let spec := values (string_value k) (state before) in
      let child := property_call ctx spec prop k (state before) in
      let after :=
        forEach_update (check_property keys values ctx) post
          (state child) in
      reports o =
        missing ++ reports before
        ++ (if is_deprecated spec then [deprecated_property k] else [])
        ++ reports child ++ reports after)
  /\ (silent_properties values ->
      reports o =
        missing ++ flat_map (own_reports keys values s) pre
        ++ own_reports keys values s prop
        ++ flat_map (own_reports keys values s) post).
Proof.
  intros Hk o missing before. subst o missing before.
  rewrite object_fixed_split. cbn zeta. cbn [reports].
  split; [|split].
  - intros Hin. rewrite (check_property_unknown _ _ _ _ k) by assumption.
    cbn [state reports]. split; reflexivity.
  - intros Hin. rewrite (check_property_declared _ _ _ _ k) by assumption.
    cbn zeta. cbn [state reports]. rewrite <- !app_assoc. reflexivity.
  - intros Hsilent.
    destruct (silent_forEach_update keys values ctx pre s Hsilent)
      as [Hs1 Hr1].
    rewrite Hs1, Hr1.
    destruct (silent_forEach_update keys values ctx [prop] s Hsilent)
      as [Hs2 Hr2].
    rewrite forEach_update_cons in Hs2, Hr2. cbn in Hs2, Hr2.
    rewrite !app_nil_r in Hr2. rewrite Hs2, Hr2.
    destruct (silent_forEach_update keys values ctx post s Hsilent)
      as [Hs3 Hr3].
    rewrite Hr3. reflexivity.
Qed.

Lemma object_not_an_object schema node ctx s :
  JsonObjectNode_is node = false ->
  object schema node ctx s =
  {| result :=
       set_expectation node (object_expectation expectation schema ctx s);
     state := s;
     reports := [expected_object node] |}.
Proof.
  intros Hnode. unfold object, bind, gets.
  destruct node; [discriminate| |]; reflexivity.
Qed.

(** C3. An object checker applied to a node that is not an object writes
    the expectation slot of the node, reports exactly one type-mismatch
    diagnostic of the default severity Error at the node, leaves the
    children and the captured state alone and returns; inside an enclosing
    fixed-key object the pairs after the mismatching one are checked as if
    nothing had happened. *)
Theorem C3_not_an_object schema node ctx s :
  JsonObjectNode_is node = false ->
  object schema node ctx s =
    {| result :=
         set_expectation node (object_expectation expectation schema ctx s);
       state := s;
       reports := [expected_object node] |}
  /\ expected_object node =
     {| message := localize "expected" [ParamText (localize "object" [])];
        range := node_range (slots_of node);
        severity := ErrorSeverity.Error;
        info := None |}
  /\ (forall keys values slots pre prop post k ctx' s',
        key prop = Some k ->
        value prop = Some node ->
        includes keys (string_value k) = true ->
        let before :=
          forEach_update (check_property keys values ctx') pre s' in
        let spec := values (string_value k) (state before) in
        checker_of spec = object schema ->
        reports
          (object (FixedKeys keys values)
             (ObjectNode slots (pre ++ prop :: post)) ctx' s') =
        map (missing_property (node_range slots))
          (missing_keys keys values (pre ++ prop :: post) s')
        ++ reports before
        ++ (if is_deprecated spec then [deprecated_property k] else [])
        ++ [expected_object node]
        ++ reports
             (forEach_update (check_property keys values ctx') post
                (state before))).
Proof.
  intros Hnode. split; [|split].
  - apply object_not_an_object, Hnode.
  - reflexivity.
  - intros keys values slots pre prop post k ctx' s' Hk Hv Hin before spec
      Hchecker.
    rewrite object_fixed_split. cbn zeta. cbn [reports].
    rewrite (check_property_declared _ _ _ _ k) by assumption.
    cbn zeta. cbn [state reports]. fold before. fold spec.
    unfold property_call. rewrite Hchecker, Hv. cbn [default].
    rewrite object_not_an_object by exact Hnode.
    cbn [state reports]. rewrite <- ?app_assoc. reflexivity.
Qed.

Lemma at_index_findIndex {A : Type} (f : A -> bool) (items : list A) :
  -1 <= findIndex f items /\
  at_index items (findIndex f items) = List.find f items.
Proof.
  induction items as [|x items [IHge IH]]; [split; [cbn; lia|reflexivity]|].
  cbn [findIndex List.find]. destruct (f x); [split; [lia|reflexivity]|].
  destruct (findIndex f items <? 0) eqn:Hneg.
  - apply Z.ltb_lt in Hneg. split; [lia|].
    rewrite <- IH. unfold at_index.
    replace (findIndex f items <? 0) with true
      by (symmetry; apply Z.ltb_lt; lia).
    reflexivity.
  - apply Z.ltb_ge in Hneg. split; [lia|].
    rewrite <- IH. unfold at_index.
    replace (findIndex f items + 1 <? 0) with false
      by (symmetry; apply Z.ltb_ge; lia).
    replace (findIndex f items <? 0) with false
      by (symmetry; apply Z.ltb_ge; lia).
    replace (Z.to_nat (findIndex f items + 1))
      with (Datatypes.S (Z.to_nat (findIndex f items))) by lia.
    reflexivity.
Qed.

Lemma find_key_is keyName children :
  List.find (key_is keyName) children =
  first_pair_with_key keyName children.
Proof.
  induction children as [|p children IH]; [reflexivity|].
  cbn [List.find first_pair_with_key]. unfold key_is at 1.
  destruct (key p) as [k|]; [|exact IH].
  destruct (String.eqb (string_value k) keyName); [reflexivity|exact IH].
Qed.

Lemma string_value_of_discriminant keyName children :
  string_value_of (List.find (key_is keyName) children) =
  discriminant_of keyName children.
Proof.
  rewrite find_key_is. unfold discriminant_of, string_value_of.
  destruct (first_pair_with_key keyName children) as [[k [[| |]|]]|];
    reflexivity.
Qed.

Lemma dispatch_on_object keyName
    (selector : option string -> PairNodes -> Eff S (JsonChecker S))
    slots children ctx s :
  dispatch localize keyName selector (ObjectNode slots children) ctx s =
  {| result :=
       result
         (result (selector (discriminant_of keyName children) children s)
            (ObjectNode slots children) ctx
            (state (selector (discriminant_of keyName children) children s)));
     state :=
       state
         (result (selector (discriminant_of keyName children) children s)
            (ObjectNode slots children) ctx
            (state (selector (discriminant_of keyName children) children s)));
     reports :=
       reports (selector (discriminant_of keyName children) children s)
       ++ reports
            (result (selector (discriminant_of keyName children) children s)
               (ObjectNode slots children) ctx
               (state
                  (selector (discriminant_of keyName children) children s)))
  |}.
Proof.
  unfold dispatch, bind.
  destruct (at_index_findIndex (key_is keyName) children) as [_ ->].
  rewrite string_value_of_discriminant. reflexivity.
Qed.

(** C6. The checker returned by [dispatch] reports one type mismatch on a
    node that is not an object, whatever the selector is; on an object it
    passes to the selector the string value of the first pair whose key is
    [keyName] when the value of that pair is a string node, and undefined
    otherwise, and applies the checker that the selector returns to the
    node itself with the context it was given. *)
Theorem C6_dispatch keyName
    (selector : option string -> PairNodes -> Eff S (JsonChecker S))
    node ctx s :
  (JsonObjectNode_is node = false ->
     dispatch localize keyName selector node ctx s =
       {| result := node; state := s; reports := [expected_object node] |}
     /\ forall selector',
          dispatch localize keyName selector' node ctx s =
          dispatch localize keyName selector node ctx s)
  /\ (forall slots children,
        node = ObjectNode slots children ->
        let selected :=
          selector (discriminant_of keyName children) children s in
        let applied := result selected node ctx (state selected) in
        dispatch localize keyName selector node ctx s =
          {| result := result applied;
             state := state applied;
             reports := reports selected ++ reports applied |})
  /\ (forall children,
        extract keyName children = discriminant_of keyName children).
Proof.
  split; [|split].
  - intros Hnode. destruct node; [discriminate| |]; split; reflexivity.
  - intros slots children ->. cbn zeta. apply dispatch_on_object.
  - intros children. apply string_value_of_discriminant.
Qed.

Lemma undeprecated_call ctx (spec : Property S) prop k s :
  property_call ctx (undeprecated spec) prop k s =
  property_call ctx spec prop k s.
Proof. destruct spec; reflexivity. Qed.

(** C7. In a fixed-key object checker applied to an object node, a pair
    whose key is a schema key with a spec flagged deprecated contributes
    one deprecated-usage diagnostic of severity Hint with the deprecated
    tag at the key node, followed by the reports of the property's checker
    run on the value node, or on the null placeholder when the pair has no
    value; the pair, the captured state and the remaining reports are the
    ones that the same spec without the flag gives. *)
Theorem C7_deprecated_properties keys values slots pre prop post k ctx s :
  key prop = Some k ->
  includes keys (string_value k) = true ->
  let before := forEach_update (check_property keys values ctx) pre s in
  let spec := values (string_value k) (state before) in
  is_deprecated spec = true ->
  let child := property_call ctx spec prop k (state before) in
  let after :=
    forEach_update (check_property keys values ctx) post (state child) in
  object (FixedKeys keys values) (ObjectNode slots (pre ++ prop :: post))
    ctx s =
    {| result :=
         ObjectNode (expected_slots (FixedKeys keys values) slots ctx s)
           (result before
            ++ checked_pair ctx spec prop k (state before) :: result after);
       state := state after;
       reports :=
         map (missing_property (node_range slots))
           (missing_keys keys values (pre ++ prop :: post) s)
         ++ reports before ++ [deprecated_property k] ++ reports child
         ++ reports after |}
  /\ deprecated_property k =
     {| message :=
          localize "json.checker.property.deprecated"
            [ParamText (localeQuote (string_value k))];
        range := node_range (string_slots k);
        severity := ErrorSeverity.Hint;
        info := Some {| info_deprecated := true |} |}
  /\ child =
     checker_of spec (default null_placeholder (value prop))
       (with_context ctx (property_context ctx spec (string_value k)))
       (state before)
  /\ (let plain := fun key s' => undeprecated (values key s') in
      let flagged := check_property keys values ctx prop (state before) in
      let unflagged := check_property keys plain ctx prop (state before) in
      result flagged = result unflagged /\
      state flagged = state unflagged /\
      reports flagged = deprecated_property k :: reports unflagged).
Proof.
  intros Hk Hin before spec Hdep child after.
  split; [|split; [|split]].
  - rewrite object_fixed_split. cbn zeta.
    rewrite (check_property_declared _ _ _ _ k) by assumption.
    cbn zeta. cbn [result state reports]. fold before. fold spec.
    rewrite Hdep. fold child. fold after.
    rewrite <- ?app_assoc. reflexivity.
  - reflexivity.
  - reflexivity.
  - cbn zeta.
    rewrite !(check_property_declared _ _ _ _ k) by assumption.
    cbn zeta. cbn [result state reports]. fold before. fold spec.
    rewrite Hdep. rewrite undeprecated_call.
    replace (is_deprecated (undeprecated spec)) with false
      by (destruct spec; reflexivity).
    split; [|split]; try reflexivity.
    unfold checked_pair. rewrite undeprecated_call.
    destruct spec; reflexivity.
Qed.

Lemma map_each_cons {A B : Type} (f : A -> Eff S B) x items s :
  map_each f (x :: items) s =
  {| result := result (f x s) :: result (map_each f items (state (f x s)));
     state := state (map_each f items (state (f x s)));
     reports :=
       reports (f x s) ++ reports (map_each f items (state (f x s))) |}.
Proof.
  cbn [map_each]. unfold bind, ret. cbn. rewrite app_nil_r. reflexivity.
Qed.

Lemma fallback_entry_outcome (C : Type) (e : string * Case S C) s :
  fallback_entry e s =
  {| result := (e.1, get_property (result (force e.2 s)) e.1);
     state := state (force e.2 s);
     reports := reports (force e.2 s) |}.
Proof.
  unfold fallback_entry, bind, ret. cbn. rewrite app_nil_r. reflexivity.
Qed.

Lemma fallback_entries_own (C : Type) (cases : JsRecord (Case S C)) s :
  Forall2
    (fun e e' =>
       e'.1 = e.1 /\
       exists s', e'.2 = get_property (result (force e.2 s')) e.1)
    cases (result (map_each fallback_entry cases s)).
Proof.
  revert s. induction cases as [|e cases IH]; intros s.
  - constructor.
  - rewrite map_each_cons, fallback_entry_outcome. cbn [result state].
    constructor; [|apply IH]. split; [reflexivity|]. exists s. reflexivity.
Qed.

Lemma fallback_entries_keys (C : Type) (cases : JsRecord (Case S C)) s :
  Object_keys (result (map_each fallback_entry cases s)) = Object_keys cases.
Proof.
  unfold Object_keys. revert s.
  induction cases as [|e cases IH]; intros s; [reflexivity|].
  rewrite map_each_cons, fallback_entry_outcome. cbn [result state].
  rewrite !fmap_cons. cbn [fst]. rewrite IH. reflexivity.
Qed.

Lemma fallback_entries_quiet (C : Type) (cases : JsRecord (Case S C)) s :
  (forall e, In e cases -> quiet_case e.2) ->
  map_each fallback_entry cases s =
  {| result :=
       map (fun e => (e.1, get_property (result (force e.2 s)) e.1)) cases;
     state := s;
     reports := [] |}.
Proof.
  intros Hquiet. induction cases as [|e cases IH]; [reflexivity|].
  rewrite map_each_cons, fallback_entry_outcome. cbn [result state reports].
  destruct (Hquiet e (or_introl eq_refl) s) as [-> ->].
  rewrite IH by (intros e' He'; apply Hquiet; right; exact He').
  reflexivity.
Qed.

Lemma fallback_entries_calls (C : Type) (cases : JsRecord (Case S C)) s :
  state (map_each fallback_entry cases s) = (producer_calls cases s).1 /\
  reports (map_each fallback_entry cases s) = (producer_calls cases s).2.
Proof.
  revert s. induction cases as [|e cases IH]; intros s.
  - split; reflexivity.
  - rewrite map_each_cons, fallback_entry_outcome.
    cbn [result state reports producer_calls fst snd].
    destruct (IH (state (force e.2 s))) as [-> ->]. split; reflexivity.
Qed.

Lemma having_fallback (C : Type) node ctx (cases : JsRecord (Case S C)) s :
  List.find (given (node_given_keys node)) (Object_keys cases) = None ->
  having localize node ctx cases s =
  {| result := Object_fromEntries (result (map_each fallback_entry cases s));
     state := state (map_each fallback_entry cases s);
     reports :=
       {| message :=
            localize "json.checker.property.missing"
              [ParamList (Object_keys cases)];
          range :=
            {| Range.start := Range.start (node_range (slots_of node));
               Range.end_ := Range.start (node_range (slots_of node)) + 1 |};
          severity := ErrorSeverity.Error;
          info := None |}
       :: reports (map_each fallback_entry cases s) |}.
Proof.
  intros Hfind. unfold having. rewrite Hfind. unfold bind, err_report, ret.
  cbn. rewrite app_nil_r. reflexivity.
Qed.

Lemma having_first (C : Type) node ctx (pre post : JsRecord (Case S C)) k c s :
  given (node_given_keys node) k = true ->
  (forall k', In k' (Object_keys pre) ->
              given (node_given_keys node) k' = false) ->
  having localize node ctx (pre ++ (k, c) :: post) s =
  {| result := defined (result (force c s));
     state := state (force c s);
     reports := reports (force c s) |}.
Proof.
  intros Hk Hpre. unfold having.
  replace (Object_keys (pre ++ (k, c) :: post))
    with (Object_keys pre ++ k :: Object_keys post)
    by (unfold Object_keys; rewrite fmap_app; reflexivity).
  rewrite find_first_given by assumption.
  rewrite get_property_middle.
  - unfold bind, ret. cbn. rewrite app_nil_r. reflexivity.
  - intros Hin. apply Hpre in Hin. congruence.
Qed.

(** C4. When no key of [cases] is among the given keys of the node,
    [having] itself reports exactly one missing-property diagnostic, whose
    parameter is the list of all the candidate keys, at the one-character
    range at the start of the node, before it evaluates the branches, and
    the only other diagnostics are the ones that the producers report when
    they are called, one after the other, each from the state that the one
    before has left: with cases that are records, or producers that report
    nothing, the missing-property diagnostic is the only one.  The record returned gives each candidate key the property
    that its own branch declares under that key.  When exactly one
    candidate key is given, [having] returns the record of that case,
    calling it if it is a producer, and reports nothing itself: the
    diagnostics are those of the producer. *)
Theorem C4_having_markers (C : Type) node ctx (cases : JsRecord (Case S C)) s :
  ((forall k, In k (Object_keys cases) ->
              given (node_given_keys node) k = false) ->
     let forced := map_each fallback_entry cases s in
     having localize node ctx cases s =
       {| result := Object_fromEntries (result forced);
          state := state forced;
          reports :=
            {| message :=
                 localize "json.checker.property.missing"
                   [ParamList (Object_keys cases)];
               range :=
                 {| Range.start := Range.start (node_range (slots_of node));
                    Range.end_ :=
                      Range.start (node_range (slots_of node)) + 1 |};
               severity := ErrorSeverity.Error;
               info := None |}
            :: reports forced |}
     /\ state forced = (producer_calls cases s).1
     /\ reports forced = (producer_calls cases s).2
     /\ Forall2
          (fun e e' =>
             e'.1 = e.1 /\
             exists s', e'.2 = get_property (result (force e.2 s')) e.1)
          cases (result forced)
     /\ (List.NoDup (Object_keys cases) ->
         result (having localize node ctx cases s) = result forced)
     /\ ((forall e, In e cases -> quiet_case e.2) ->
         having localize node ctx cases s =
           {| result :=
                Object_fromEntries
                  (map
                     (fun e =>
                        (e.1, get_property (result (force e.2 s)) e.1))
                     cases);
              state := s;
              reports :=
                [{| message :=
                      localize "json.checker.property.missing"
                        [ParamList (Object_keys cases)];
                    range :=
                      {| Range.start :=
                           Range.start (node_range (slots_of node));
                         Range.end_ :=
                           Range.start (node_range (slots_of node)) + 1 |};
                    severity := ErrorSeverity.Error;
                    info := None |}] |}))
  /\ (forall properties : CheckerRecord C,
        quiet_case (Direct properties : Case S C))
  /\ (forall k c,
        get_property cases k = Some c ->
        given (node_given_keys node) k = true ->
        (forall k', In k' (Object_keys cases) -> k' <> k ->
                    given (node_given_keys node) k' = false) ->
        having localize node ctx cases s =
          {| result := defined (result (force c s));
             state := state (force c s);
             reports := reports (force c s) |}).
Proof using S localize.
  split; [|split].
  - intros Hnone forced.
    assert (Hfind :
      List.find (given (node_given_keys node)) (Object_keys cases) = None).
    { destruct (List.find _ _) as [k|] eqn:Hfind; [|reflexivity].
      apply find_some in Hfind. destruct Hfind as [Hin Hk].
      rewrite (Hnone k Hin) in Hk. discriminate. }
    pose proof (having_fallback C node ctx cases s Hfind) as Hhaving.
    fold forced in Hhaving.
    split; [exact Hhaving|].
    split; [apply fallback_entries_calls|].
    split; [apply fallback_entries_calls|].
    split; [apply fallback_entries_own|]. split.
    + intros Hnodup. rewrite Hhaving. cbn [result].
      apply fromEntries_NoDup. unfold forced.
      rewrite fallback_entries_keys. exact Hnodup.
    + intros Hquiet. rewrite Hhaving. unfold forced.
      rewrite fallback_entries_quiet by exact Hquiet. reflexivity.
  - intros properties s'. split; reflexivity.
  - intros k c Hget Hk Hothers.
    destruct (get_property_split _ _ _ Hget) as (pre & post & -> & Hnot).
    apply having_first; [exact Hk|].
    intros k' Hin. apply Hothers.
    + unfold Object_keys in Hin |- *. rewrite fmap_app, in_app_iff.
      left. exact Hin.
    + intros ->. exact (Hnot Hin).
Qed.

(** C10. [cases] being the object literal whose properties are declared
    as [declared], when [k] is the first candidate key in the order of
    [Object.keys(cases)] that is among the given keys of the node, then
    whatever later candidate keys are given too, [having] returns the
    record of the case of [k], calling it if it is a producer, and reports
    nothing itself: the diagnostics are those of the producer, and there
    is none for a case that is a record.  The order of [Object.keys] puts
    the keys that are array indices first, by ascending index, and then
    the other keys as they were created; it is the declaration order when
    no candidate key is an array index. *)
Theorem C10_having_first_present (C : Type) node ctx
    (declared : list (string * Case S C)) (pre post : JsRecord (Case S C))
    k c s :
  Object_literal declared = pre ++ (k, c) :: post ->
  given (node_given_keys node) k = true ->
  (forall k', In k' (Object_keys pre) ->
              given (node_given_keys node) k' = false) ->
  having localize node ctx (Object_literal declared) s =
    {| result := defined (result (force c s));
       state := state (force c s);
       reports := reports (force c s) |}
  /\ (forall properties,
        c = Direct properties ->
        having localize node ctx (Object_literal declared) s =
          {| result := defined properties; state := s; reports := [] |})
  /\ List.find (given (node_given_keys node))
       (Object_keys (Object_literal declared)) = Some k
  /\ (exists indexed,
        Object_literal declared =
          map snd indexed ++ named_entries (Object_fromEntries declared)
        /\ Sorted by_index indexed
        /\ Forall (fun x => array_index x.2.1 = Some x.1) indexed)
  /\ Permutation (Object_literal declared) (Object_fromEntries declared)
  /\ (Forall (fun e => array_index e.1 = None) declared ->
      Object_literal declared = Object_fromEntries declared)
  /\ (Forall (fun e => array_index e.1 = None) declared ->
      List.NoDup (Object_keys declared) ->
      declared = pre ++ (k, c) :: post).
Proof using S localize.
  intros Hliteral Hk Hpre.
  assert (Hhaving :
    having localize node ctx (Object_literal declared) s =
    {| result := defined (result (force c s));
       state := state (force c s);
       reports := reports (force c s) |}).
  { rewrite Hliteral. apply having_first; assumption. }
  split; [exact Hhaving|]. split.
  { intros properties ->. exact Hhaving. }
  split.
  { rewrite Hliteral.
    replace (Object_keys (pre ++ (k, c) :: post))
      with (Object_keys pre ++ k :: Object_keys post)
      by (unfold Object_keys; rewrite fmap_app; reflexivity).
    apply find_first_given; assumption. }
  split.
  { exists (indexed_entries (Object_fromEntries declared)).
    split; [reflexivity|].
    split; [apply indexed_entries_sorted|apply indexed_entries_own]. }
  split; [apply Object_literal_Permutation|].
  split; [apply Object_literal_named|].
  intros Hnamed Hnodup. rewrite <- Hliteral.
  rewrite (Object_literal_named declared Hnamed).
  symmetry. apply fromEntries_NoDup, Hnodup.
Qed.

End Properties.

(** ** [pick] *)

Section PickProperties.
Variable C : Type.

Implicit Types (h : Heap C) (r : Ref) (p : CheckerProperty C).

Lemma picked_idempotent name p :
  picked name (picked name p) = picked name p.
Proof. destruct p; reflexivity. Qed.

Lemma picked_spec name p :
  checker_of (picked name p) = checker_of p /\
  is_optional (picked name p) = is_optional p /\
  is_deprecated (picked name p) = is_deprecated p /\
  exists cp, picked name p = Complex cp /\ cp_context cp = Some name.
Proof.
  destruct p as [c|cp]; cbn; repeat split; eauto.
Qed.

Lemma includes_keys {V : Type} (o : JsRecord V) key :
  includes (Object_keys o) key = false -> get_property o key = None.
Proof.
  intros Hnot. apply get_property_None. rewrite <- includes_In.
  congruence.
Qed.

Lemma pick_property_read r name key h :
  let h' := state (pick_property r name key h) in
  (forall r', r' <> r -> h' !! r' = h !! r') /\
  Object_keys (read h' r) = Object_keys (read h r) /\
  forall key',
    get_property (read h' r) key' =
    if String.eqb key key'
    then picked name <$> get_property (read h r) key'
    else get_property (read h r) key'.
Proof.
  unfold pick_property. cbn zeta. cbn [state].
  destruct (get_property (read h r) key) as [p|] eqn:Hget.
  - split; [|split].
    + intros r' Hne. rewrite lookup_insert_ne by congruence. reflexivity.
    + unfold read at 1. rewrite lookup_insert_eq. cbn.
      apply keys_set_property, get_property_In. eauto.
    + intros key'. unfold read at 1. rewrite lookup_insert_eq. cbn.
      rewrite get_set_property.
      destruct (String.eqb key key') eqn:Hkey; [|reflexivity].
      apply String.eqb_eq in Hkey. subst key'. rewrite Hget. reflexivity.
  - split; [|split]; try reflexivity.
    intros key'. destruct (String.eqb key key') eqn:Hkey; [|reflexivity].
    apply String.eqb_eq in Hkey. subst key'. rewrite Hget. reflexivity.
Qed.

Lemma forEach_pick_property r name keys h :
  let o := forEach (pick_property r name) keys h in
  reports o = [] /\
  (forall r', r' <> r -> state o !! r' = h !! r') /\
  Object_keys (read (state o) r) = Object_keys (read h r) /\
  forall key,
    get_property (read (state o) r) key =
    if includes keys key
    then picked name <$> get_property (read h r) key
    else get_property (read h r) key.
Proof.
  revert h. induction keys as [|k keys IH]; intros h.
  - cbn. repeat split; reflexivity.
  - cbn [forEach]. unfold bind. cbn [result state reports].
    destruct (pick_property_read r name k h) as (Hother & Hkeys & Hget).
    destruct (IH (state (pick_property r name k h)))
      as (IHr & IHother & IHkeys & IHget).
    cbn zeta in *. split; [|split; [|split]].
    + rewrite IHr. reflexivity.
    + intros r' Hne. rewrite IHother, Hother by exact Hne. reflexivity.
    + rewrite IHkeys, Hkeys. reflexivity.
    + intros key. rewrite IHget, Hget. unfold includes. cbn [existsb].
      rewrite (String.eqb_sym key k).
      destruct (String.eqb k key); cbn [orb]; [|reflexivity].
      destruct (existsb (String.eqb key) keys); [|reflexivity].
      destruct (get_property (read h r) key) as [p|]; [|reflexivity].
      cbn. rewrite picked_idempotent. reflexivity.
Qed.

Lemma pick_found v cases r h :
  get_property cases (strip_namespace v) = Some r ->
  let o := pick (Some v) cases h in
  result o = RecordAt r /\
  reports o = [] /\
  (forall r', r' <> r -> state o !! r' = h !! r') /\
  Object_keys (read (state o) r) = Object_keys (read h r) /\
  forall key,
    get_property (read (state o) r) key =
    picked (strip_namespace v) <$> get_property (read h r) key.
Proof.
  intros Hcase. unfold pick. rewrite Hcase. unfold bind, gets, ret.
  cbn [result state reports].
  destruct (forEach_pick_property r (strip_namespace v)
              (Object_keys (read h r)) h)
    as (Hr & Hother & Hkeys & Hget).
  cbn zeta in *. split; [reflexivity|].
  split; [rewrite Hr; reflexivity|].
  split; [exact Hother|]. split; [exact Hkeys|].
  intros key. rewrite Hget.
  destruct (includes (Object_keys (read h r)) key) eqn:Hin; [reflexivity|].
  rewrite (includes_keys _ _ Hin). reflexivity.
Qed.

Lemma record_ext {V : Type} (o o' : JsRecord V) :
  Object_keys o = Object_keys o' ->
  List.NoDup (Object_keys o) ->
  (forall k, get_property o k = get_property o' k) ->
  o = o'.
Proof.
  unfold Object_keys. revert o'.
  induction o as [|[k v] o IH]; intros [|[k' v'] o'] Hkeys Hnodup Hget;
    try discriminate; [reflexivity|].
  cbn in Hkeys. injection Hkeys as -> Hkeys.
  cbn in Hnodup. apply List.NoDup_cons_iff in Hnodup.
  destruct Hnodup as [Hfresh Hnodup].
  pose proof (Hget k') as Hk. cbn in Hk. rewrite String.eqb_refl in Hk.
  injection Hk as ->. f_equal. apply IH; [exact Hkeys|exact Hnodup|].
  intros k. pose proof (Hget k) as Hk. cbn in Hk.
  destruct (String.eqb k' k) eqn:Heq; [|exact Hk].
  apply String.eqb_eq in Heq. subst k'.
  rewrite !get_property_None; [reflexivity| |exact Hfresh].
  unfold Object_keys. rewrite <- Hkeys. exact Hfresh.
Qed.

Lemma get_property_map {V W : Type} (f : V -> W) (o : JsRecord V) k :
  get_property (map (fun e => (e.1, f e.2)) o) k = f <$> get_property o k.
Proof.
  induction o as [|[k' v'] o IH]; [reflexivity|].
  cbn. destruct (String.eqb k' k); [reflexivity|exact IH].
Qed.

(** C5. [pick] returns a new empty record, leaves the heap as it is and
    reports nothing when the value is undefined or when [cases] has no
    entry under the value with the prefix [minecraft:] stripped; otherwise
    it returns the record of that entry, in which every property now is a
    complex spec with the stripped value as its context and with the
    checker and the optional and deprecated flags that it had. *)
Theorem C5_pick value cases h :
  (value = None \/
   (exists v, value = Some v /\
              get_property cases (strip_namespace v) = None) ->
     pick value cases h =
     {| result := NewRecord []; state := h; reports := [] |})
  /\ (forall v r,
        value = Some v ->
        get_property cases (strip_namespace v) = Some r ->
        let o := pick value cases h in
        result o = RecordAt r /\
        reports o = [] /\
        Object_keys (read (state o) r) = Object_keys (read h r) /\
        forall key p,
          get_property (read h r) key = Some p ->
          get_property (read (state o) r) key =
            Some (Complex
                    {| cp_checker := checker_of p;
                       cp_opt :=
                         match p with
                         | Complex cp => cp_opt cp
                         | Bare _ => None
                         end;
                       cp_deprecated :=
                         match p with
                         | Complex cp => cp_deprecated cp
                         | Bare _ => None
                         end;
                       cp_context := Some (strip_namespace v) |})
          /\ is_optional (picked (strip_namespace v) p) = is_optional p
          /\ is_deprecated (picked (strip_namespace v) p) = is_deprecated p)
  /\ (forall name, strip_namespace ("minecraft:" ++ name) = name)
  /\ (forall v, strip_prefix "minecraft:" v = None -> strip_namespace v = v).
Proof.
  split; [|split; [|split]].
  - intros [->|(v & -> & Hnone)]; [reflexivity|].
    unfold pick. rewrite Hnone. reflexivity.
  - intros v r -> Hcase.
    destruct (pick_found v cases r h Hcase)
      as (Hres & Hrep & _ & Hkeys & Hget).
    cbn zeta in *. split; [exact Hres|]. split; [exact Hrep|].
    split; [exact Hkeys|].
    intros key p Hp. rewrite Hget, Hp.
    destruct (picked_spec (strip_namespace v) p) as (_ & Hopt & Hdep & _).
    split; [reflexivity|]. split; assumption.
  - intros name. reflexivity.
  - intros v Hnone. unfold strip_namespace. rewrite Hnone. reflexivity.
Qed.

(** C9. With a value that has an entry in [cases], [pick] returns the
    reference stored in [cases] under the stripped value, not a copy, and
    the record object at that reference has been rewritten in place: each
    of its properties is replaced by the complex spec built from it, the
    other record objects are untouched, and the heap differs from the one
    before the call as soon as one property was not yet in that form. *)
Theorem C9_pick_rewrites_in_place v cases r h :
  get_property cases (strip_namespace v) = Some r ->
  let o := pick (Some v) cases h in
  result o = RecordAt r
  /\ (forall key p,
        get_property (read h r) key = Some p ->
        get_property (read (state o) r) key =
        Some (picked (strip_namespace v) p))
  /\ (List.NoDup (Object_keys (read h r)) ->
      read (state o) r =
      map (fun e => (e.1, picked (strip_namespace v) e.2)) (read h r))
  /\ (forall r', r' <> r -> state o !! r' = h !! r')
  /\ ((exists key p,
         get_property (read h r) key = Some p /\
         picked (strip_namespace v) p <> p) ->
      state o <> h).
Proof.
  intros Hcase.
  destruct (pick_found v cases r h Hcase)
    as (Hres & _ & Hother & Hkeys & Hget).
  cbn zeta in *. split; [exact Hres|].
  split; [|split; [|split]].
  - intros key p Hp. rewrite Hget, Hp. reflexivity.
  - intros Hnodup. apply record_ext.
    + rewrite Hkeys. unfold Object_keys.
      rewrite <- list_fmap_compose. reflexivity.
    + rewrite Hkeys. exact Hnodup.
    + intros k. rewrite Hget, get_property_map. reflexivity.
  - exact Hother.
  - intros (key & p & Hp & Hchanged) Hsame.
    pose proof (Hget key) as Hkey. rewrite Hsame, Hp in Hkey.
    apply Hchanged. symmetry. injection Hkey as Hkey. exact Hkey.
Qed.

End PickProperties.

(** ** A second run *)

Lemma erase_object slots children :
  erase (ObjectNode slots children) =
  ObjectNode (erase_slots slots) (map erase_pair children).
Proof. reflexivity. Qed.

Lemma erase_set_expectation node e :
  erase (set_expectation node e) = erase node.
Proof.
  destruct node as [slots children|[slots v]|kind slots items]; reflexivity.
Qed.

Lemma set_expectation_twice node e :
  set_expectation (set_expectation node e) e = set_expectation node e.
Proof.
  destruct node as [slots children|[slots v]|kind slots items]; reflexivity.
Qed.

Lemma given_keys_erase children children' :
  map erase_pair children = map erase_pair children' ->
  given_keys children = given_keys children'.
Proof.
  intros Herase.
  assert (Hgiven : forall items,
            given_keys (map erase_pair items) = given_keys items).
  { intros items. unfold given_keys. rewrite map_map. apply map_ext.
    intros [[k|] v]; reflexivity. }
  rewrite <- (Hgiven children), <- (Hgiven children'), Herase. reflexivity.
Qed.

Lemma discriminant_erase keyName children :
  discriminant_of keyName (map erase_pair children) =
  discriminant_of keyName children.
Proof.
  unfold discriminant_of.
  assert (Hfirst :
    first_pair_with_key keyName (map erase_pair children) =
    erase_pair <$> first_pair_with_key keyName children).
  { induction children as [|[[k|] v] children IH]; cbn;
      [reflexivity| |exact IH].
    destruct (String.eqb (string_value k) keyName); [reflexivity|exact IH]. }
  rewrite Hfirst.
  destruct (first_pair_with_key keyName children) as [[k [[| |]|]]|];
    reflexivity.
Qed.

Lemma forEach_update_rerun {S A B : Type} (f : A -> Eff S A) (g : A -> B)
    items s :
  (forall x s', g (result (f x s')) = g x /\ f (result (f x s')) s' = f x s') ->
  map g (result (forEach_update f items s)) = map g items /\
  forEach_update f (result (forEach_update f items s)) s =
  forEach_update f items s.
Proof.
  intros Hf. revert s. induction items as [|x items IH]; intros s.
  - split; reflexivity.
  - rewrite forEach_update_cons. cbn [result].
    destruct (Hf x s) as [Hg Hrerun].
    destruct (IH (state (f x s))) as [IHg IHrerun].
    split.
    + cbn [map]. rewrite Hg, IHg. reflexivity.
    + rewrite forEach_update_cons, Hrerun, IHrerun. reflexivity.
Qed.

Section Rerun.
Variable S : Type.
Variable localize : string -> list LocaleParam -> string.
Variable localeQuote : string -> string.
Variable expectation :
  JsonChecker S -> JsonCheckerContext -> S -> option (list JsonExpectation).

Abbreviation object := (object localize localeQuote expectation).
Abbreviation check_property := (check_property localize localeQuote).
Abbreviation built := (built localize localeQuote expectation).

Implicit Types (values : string -> S -> Property S).
Implicit Types (ctx : JsonCheckerContext) (s : S).

Lemma stable_rerun (c : JsonChecker S) node ctx s :
  rerun_stable c -> c (result (c node ctx s)) ctx s = c node ctx s.
Proof. intros Hstable. apply Hstable. Qed.

Lemma stable_erase (c : JsonChecker S) node ctx s :
  rerun_stable c -> erase (result (c node ctx s)) = erase node.
Proof. intros Hstable. apply Hstable. Qed.

Lemma property_call_rerun ctx (spec : Property S) prop k text s :
  rerun_stable (checker_of spec) ->
  property_call ctx spec (checked_pair localize ctx spec prop k s)
    (set_hover k text) s =
  property_call ctx spec prop k s.
Proof.
  intros Hstable. unfold checked_pair, property_call. cbn [value].
  destruct (value prop) as [v|]; cbn; [|reflexivity].
  apply stable_rerun, Hstable.
Qed.

Lemma check_property_rerun keys values ctx prop s :
  (forall k s', rerun_stable (checker_of (values k s'))) ->
  erase_pair (result (check_property keys values ctx prop s)) =
    erase_pair prop /\
  check_property keys values ctx
    (result (check_property keys values ctx prop s)) s =
  check_property keys values ctx prop s.
Proof.
  intros Hstable. destruct (key prop) as [k|] eqn:Hk.
  - destruct (includes keys (string_value k)) eqn:Hin.
    + rewrite (check_property_declared _ _ _ _ _ _ _ k) by assumption.
      cbn zeta. cbn [result]. split.
      * unfold checked_pair, erase_pair. cbn [key value].
        destruct prop as [k' [v|]]; cbn in Hk; subst k'; cbn.
        -- f_equal. f_equal. unfold property_call. cbn.
           apply stable_erase, Hstable.
        -- reflexivity.
      * erewrite (check_property_declared _ _ _ _ _ _ _ (set_hover k _));
          [|reflexivity|exact Hin].
        cbn zeta. cbn [string_value set_hover].
        rewrite property_call_rerun by apply Hstable.
        f_equal.
        unfold checked_pair at 1. rewrite property_call_rerun by apply Hstable.
        unfold checked_pair. cbn [value].
        destruct (value prop); reflexivity.
    + rewrite (check_property_unknown _ _ _ _ _ _ _ k) by assumption.
      cbn [result]. split; [reflexivity|].
      apply check_property_unknown; assumption.
  - unfold check_property. rewrite Hk. cbn [ret result].
    rewrite Hk. split; reflexivity.
Qed.

Lemma check_dynamic_rerun (keys : JsonChecker S) values ctx prop s :
  rerun_stable keys ->
  (forall k s', rerun_stable (checker_of (values k s'))) ->
  erase_pair (result (check_dynamic keys values ctx prop s)) =
    erase_pair prop /\
  check_dynamic keys values ctx (result (check_dynamic keys values ctx prop s))
    s =
  check_dynamic keys values ctx prop s.
Proof.
  intros Hkeys Hvalues. destruct prop as [[k|] v]; [|split; reflexivity].
  pose proof (stable_erase keys (StringNode k) ctx s Hkeys) as Herase.
  pose proof (stable_rerun keys (StringNode k) ctx s Hkeys) as Hrerun.
  unfold check_dynamic. cbn [key value]. unfold bind, gets, ret.
  destruct (result (keys (StringNode k) ctx s)) as [| k' |] eqn:Hres;
    try discriminate Herase.
  cbn [as_string_node].
  assert (Hk : erase_string k' = erase_string k).
  { change (StringNode (erase_string k') = StringNode (erase_string k))
      in Herase. congruence. }
  assert (Hvalue : string_value k' = string_value k)
    by exact (f_equal string_value Hk).
  destruct v as [v|]; cbn [result state reports key value]; split.
  - unfold erase_pair. cbn [key value fmap option_fmap option_map].
    rewrite Hk, (stable_erase _ v ctx _ (Hvalues _ _)). reflexivity.
  - rewrite Hrerun, Hres. cbn [as_string_node].
    rewrite (stable_rerun _ v ctx _ (Hvalues _ _)). reflexivity.
  - unfold erase_pair. cbn [key value fmap option_fmap option_map].
    rewrite Hk. reflexivity.
  - rewrite Hrerun, Hres. reflexivity.
Qed.

Lemma object_dynamic (keys : JsonChecker S) values slots children ctx s :
  object (DynamicKeys keys values) (ObjectNode slots children) ctx s =
  let rest := forEach_update (check_dynamic keys values ctx) children s in
  {| result :=
       ObjectNode
         (expected_slots expectation (DynamicKeys keys values) slots ctx s)
         (result rest);
     state := state rest;
     reports := reports rest |}.
Proof.
  unfold object, bind, gets. cbn. rewrite app_nil_r. reflexivity.
Qed.

Lemma expected_object_set_expectation node e :
  expected_object localize (set_expectation node e) =
  expected_object localize node.
Proof.
  destruct node as [slots children|[slots v]|kind slots items]; reflexivity.
Qed.

Lemma object_rerun (schema : ObjectSchema S) :
  match schema with
  | AnyObject => True
  | FixedKeys _ values =>
      forall k s, rerun_stable (checker_of (values k s))
  | DynamicKeys keys values =>
      rerun_stable keys /\
      forall k s, rerun_stable (checker_of (values k s))
  end ->
  rerun_stable (object schema).
Proof.
  intros Hschema node ctx s.
  destruct (JsonObjectNode_is node) eqn:Hnode.
  - destruct node as [slots children| |]; try discriminate.
    destruct schema as [|keys values|keys values].
    + split; reflexivity.
    + rewrite object_fixed. cbn zeta. cbn [result].
      destruct (forEach_update_rerun (check_property keys values ctx)
                  erase_pair children s) as [Herase Hrerun].
      { intros prop s'. apply check_property_rerun, Hschema. }
      split.
      * rewrite !erase_object, Herase. reflexivity.
      * rewrite object_fixed. cbn zeta. rewrite Hrerun.
        unfold missing_keys.
        rewrite (given_keys_erase _ _ Herase). reflexivity.
    + destruct Hschema as [Hkeys Hvalues].
      rewrite object_dynamic. cbn zeta. cbn [result].
      destruct (forEach_update_rerun (check_dynamic keys values ctx)
                  erase_pair children s) as [Herase Hrerun].
      { intros prop s'. apply check_dynamic_rerun; assumption. }
      split.
      * rewrite !erase_object, Herase. reflexivity.
      * rewrite object_dynamic. cbn zeta. rewrite Hrerun. reflexivity.
  - rewrite object_not_an_object by exact Hnode. cbn [result]. split.
    + apply erase_set_expectation.
    + rewrite object_not_an_object
        by (destruct node; [discriminate| |]; reflexivity).
      rewrite set_expectation_twice, expected_object_set_expectation.
      reflexivity.
Qed.

Lemma dispatch_rerun keyName
    (selector : option string -> PairNodes -> Eff S (JsonChecker S)) :
  shape_only selector ->
  (forall v children s, rerun_stable (result (selector v children s))) ->
  rerun_stable (dispatch localize keyName selector).
Proof.
  intros Hshape Hselected node ctx s.
  destruct (JsonObjectNode_is node) eqn:Hnode.
  - destruct node as [slots children| |]; try discriminate.
    rewrite dispatch_on_object. cbn [result].
    set (selected := selector (discriminant_of keyName children) children s).
    pose proof (stable_erase (result selected) (ObjectNode slots children)
                  ctx (state selected) (Hselected _ _ _)) as Herase.
    pose proof (stable_rerun (result selected) (ObjectNode slots children)
                  ctx (state selected) (Hselected _ _ _)) as Hrerun.
    split; [exact Herase|].
    destruct (result (result selected (ObjectNode slots children) ctx
                        (state selected)))
      as [slots' children'| |] eqn:Hres; try discriminate Herase.
    rewrite !erase_object in Herase. injection Herase as _ Hchildren.
    rewrite dispatch_on_object.
    rewrite <- (discriminant_erase keyName children'), Hchildren,
      discriminant_erase.
    rewrite (Hshape _ children' children s) by exact Hchildren.
    fold selected. rewrite Hrerun, Hres. reflexivity.
  - destruct node; [discriminate| |]; split; reflexivity.
Qed.

Lemma built_rerun_stable (c : JsonChecker S) : built c -> rerun_stable c.
Proof.
  induction 1 as [c Hleaf| |keys values _ IH|keys values _ IHkeys _ IH
                 |keyName selector Hshape _ IH].
  - exact Hleaf.
  - apply (object_rerun AnyObject). exact I.
  - apply (object_rerun (FixedKeys keys values)). exact IH.
  - apply (object_rerun (DynamicKeys keys values)). split; assumption.
  - apply dispatch_rerun; assumption.
Qed.

End Rerun.

(** ** The sample schemas *)

Lemma leaf_checker_stable (S : Type) (l : Leaf) :
  rerun_stable (@leaf_checker S l).
Proof.
  intros node ctx s.
  destruct l, node as [slots children|[slots v]|kind slots items];
    split; reflexivity.
Qed.

Lemma no_checker_stable (S : Type) : rerun_stable (@no_checker S).
Proof. intros node ctx s. split; reflexivity. Qed.

Lemma built_sample_record (S : Type)
    (properties : S -> CheckerRecord (JsonChecker S)) (s : S) :
  (forall s' k p,
     get_property (properties s') k = Some p ->
     built sample_localize sample_quote harvest (checker_of p)) ->
  built sample_localize sample_quote harvest (sample_record properties s).
Proof.
  intros Hproperties. unfold sample_record, record. apply built_fixed.
  intros k s'. destruct (get_property (properties s') k) as [p|] eqn:Hget.
  - exact (Hproperties s' k p Hget).
  - apply built_leaf, no_checker_stable.
Qed.

Lemma built_lifted (S : Type) (o : CheckerRecord Leaf) k
    (p : CheckerProperty (JsonChecker S)) :
  get_property (map (fun e => (e.1, lift_property e.2)) o) k = Some p ->
  built sample_localize sample_quote harvest (checker_of p).
Proof.
  rewrite get_property_map.
  destruct (get_property o k) as [[l|cp]|]; intros [= <-];
    apply built_leaf, leaf_checker_stable.
Qed.

Lemma built_record_of (r : RecordValue Leaf) (h : Heap Leaf) :
  built sample_localize sample_quote harvest (record_of r h).
Proof.
  destruct r as [properties|properties]; unfold record_of;
    apply built_sample_record; intros h' k p; apply built_lifted.
Qed.

Lemma built_shared_schema (h : Heap Leaf) :
  built sample_localize sample_quote harvest (shared_schema h).
Proof.
  unfold shared_schema. apply built_sample_record.
  intros h' k p. cbn [get_property].
  destruct (String.eqb "a" k).
  - intros [= <-]. apply built_sample_record.
    intros h'' k' p'. apply built_lifted.
  - destruct (String.eqb "b" k); [|discriminate].
    intros [= <-]. apply built_dispatch.
    + intros v children children' s _. reflexivity.
    + intros v children s. apply built_record_of.
Qed.

(** ** The theorems at the sample inputs *)

Lemma sample_keys_NoDup : List.NoDup sample_keys.
Proof. repeat constructor; cbn; intuition discriminate. Qed.

(** C1 on the sample schema and node: of the required keys [a] and [d] the
    node gives [a], so [d] is reported once. *)
Lemma C1_missing_properties_witness :
  List.NoDup sample_keys /\
  missing_keys sample_keys sample_values [pair_a; pair_c; pair_e] tt = ["d"] /\
  count_occ String.string_dec
    (missing_keys sample_keys sample_values [pair_a; pair_c; pair_e] tt)
    "d" = 1%nat.
Proof.
  split; [exact sample_keys_NoDup|]. split; [reflexivity|].
  destruct (C1_missing_properties unit sample_localize sample_quote harvest
              sample_keys sample_values (slots_at 0 26)
              [pair_a; pair_c; pair_e] root_context tt)
    as (_ & _ & _ & _ & Hcount & _).
  apply Hcount.
  - exact sample_keys_NoDup.
  - vm_compute. tauto.
  - reflexivity.
  - vm_compute. intuition discriminate.
Defined.

(** C2 on the sample schema and node: [c] is not a schema key. *)
Lemma C2_unknown_properties_witness :
  key pair_c = Some key_c /\
  includes sample_keys (string_value key_c) = false /\
  reports
    (sample_record (fun _ => sample_properties) tt sample_node root_context
       tt) =
  [missing_property sample_localize sample_quote (node_range (slots_at 0 26))
     "d";
   unknown_property sample_localize sample_quote key_c;
   deprecated_property sample_localize sample_quote key_e].
Proof.
  split; [reflexivity|]. split; [reflexivity|].
  destruct (C2_unknown_properties unit sample_localize sample_quote harvest
              sample_keys sample_values (slots_at 0 26) [pair_a] pair_c
              [pair_e] key_c root_context tt eq_refl)
    as (Hunknown & _ & _).
  destruct (Hunknown eq_refl) as [Hreports _].
  change (sample_record (fun _ => sample_properties) tt)
    with (sample_object (FixedKeys sample_keys sample_values)).
  unfold sample_object, sample_node.
  change [pair_a; pair_c; pair_e] with ([pair_a] ++ pair_c :: [pair_e]).
  rewrite Hreports. vm_compute. reflexivity.
Defined.

(** C3 on a string node, alone and as the value of the first pair of an
    object all of whose properties are to be objects. *)
Lemma C3_not_an_object_witness :
  JsonObjectNode_is (StringNode (string_at 6 9 "v")) = false /\
  sample_object (FixedKeys sample_keys sample_values)
    (StringNode (string_at 6 9 "v")) root_context tt =
  {| result :=
       set_expectation (StringNode (string_at 6 9 "v"))
         (object_expectation harvest (FixedKeys sample_keys sample_values)
            root_context tt);
     state := tt;
     reports :=
       [expected_object sample_localize (StringNode (string_at 6 9 "v"))] |}
  /\ reports
       (sample_object (FixedKeys ["a"; "e"] nested_values) sample_node
          root_context tt) =
     [expected_object sample_localize (StringNode (string_at 6 9 "v"));
      unknown_property sample_localize sample_quote key_c;
      expected_object sample_localize (StringNode (string_at 21 24 "w"))].
Proof.
  split; [reflexivity|].
  destruct (C3_not_an_object unit sample_localize sample_quote harvest
              (FixedKeys sample_keys sample_values)
              (StringNode (string_at 6 9 "v")) root_context tt eq_refl)
    as (Halone & _ & _).
  split; [exact Halone|].
  destruct (C3_not_an_object unit sample_localize sample_quote harvest
              AnyObject (StringNode (string_at 6 9 "v")) root_context tt
              eq_refl)
    as (_ & _ & Hsibling).
  exact (Hsibling ["a"; "e"] nested_values (slots_at 0 26) [] pair_a
           [pair_c; pair_e] key_a root_context tt eq_refl eq_refl eq_refl
           eq_refl).
Defined.

(** C4: the sample node gives neither [x] nor [y]; it gives [a] and not
    [x].  The producer of the second table reports when it is called: its
    diagnostic follows the single missing-property diagnostic in the
    fallback, and is the only one when its case is selected. *)
Lemma C4_having_markers_witness :
  (forall k, In k (Object_keys absent_cases) ->
             given (node_given_keys sample_node) k = false) /\
  (forall e, In e absent_cases -> quiet_case e.2) /\
  having (S := unit) sample_localize sample_node root_context absent_cases tt =
  {| result :=
       [("x", Some (Bare AnyValue)); ("y", Some (Complex (opt StringValue)))];
     state := tt;
     reports :=
       [{| message := "json.checker.property.missing(x, y)";
           range := {| Range.start := 0; Range.end_ := 1 |};
           severity := ErrorSeverity.Error;
           info := None |}] |}
  /\ having (S := unit) sample_localize sample_node root_context
       reporting_absent_cases tt =
     {| result := [("x", Some (Bare AnyValue)); ("y", None)];
        state := tt;
        reports :=
          [{| message := "json.checker.property.missing(x, y)";
              range := {| Range.start := 0; Range.end_ := 1 |};
              severity := ErrorSeverity.Error;
              info := None |};
           producer_report] |}
  /\ having (S := unit) sample_localize sample_node root_context
       reporting_present_cases tt =
     {| result := [("a", Some (Bare StringValue))];
        state := tt;
        reports := [producer_report] |}.
Proof.
  assert (Habsent : forall k, In k (Object_keys absent_cases) ->
                              given (node_given_keys sample_node) k = false).
  { intros k [<-|[<-|[]]]; reflexivity. }
  assert (Hquiet : forall e, In e absent_cases -> quiet_case e.2).
  { intros e [<-|[<-|[]]] s; split; reflexivity. }
  assert (Hreporting :
    forall k, In k (Object_keys reporting_absent_cases) ->
              given (node_given_keys sample_node) k = false).
  { intros k [<-|[<-|[]]]; reflexivity. }
  split; [exact Habsent|]. split; [exact Hquiet|].
  destruct (C4_having_markers unit sample_localize Leaf sample_node
              root_context absent_cases tt) as [Hnone _].
  destruct (C4_having_markers unit sample_localize Leaf sample_node
              root_context reporting_absent_cases tt) as [Hfallback _].
  destruct (C4_having_markers unit sample_localize Leaf sample_node
              root_context reporting_present_cases tt) as (_ & _ & Hone).
  split; [|split].
  - destruct (Hnone Habsent) as (_ & _ & _ & _ & _ & Honly).
    exact (Honly Hquiet).
  - exact (proj1 (Hfallback Hreporting)).
  - apply (Hone "a" reporting_producer); [reflexivity|reflexivity|].
    intros k' [<-|[<-|[]]] Hne; [reflexivity|].
    exfalso. apply Hne. reflexivity.
Defined.

(** C5: the value [minecraft:foo] selects the case [foo]; the value
    [bar] has no case. *)
Lemma C5_pick_witness :
  get_property [("foo", shared)] (strip_namespace "minecraft:foo")
    = Some shared /\
  result (pick (Some "minecraft:foo") [("foo", shared)] shared_heap)
    = RecordAt shared /\
  get_property
    (read (state (pick (Some "minecraft:foo") [("foo", shared)] shared_heap))
       shared) "x" =
  Some (Complex {| cp_checker := AnyValue; cp_opt := None;
                   cp_deprecated := None; cp_context := Some "foo" |}) /\
  pick (Some "bar") [("foo", shared)] shared_heap =
  {| result := NewRecord []; state := shared_heap; reports := [] |}.
Proof.
  split; [reflexivity|].
  destruct (C5_pick Leaf (Some "minecraft:foo") [("foo", shared)] shared_heap)
    as (_ & Hfound & _).
  destruct (Hfound "minecraft:foo" shared eq_refl eq_refl)
    as (Hresult & _ & _ & Hrewritten).
  split; [exact Hresult|].
  split; [exact (proj1 (Hrewritten "x" (Bare AnyValue) eq_refl))|].
  destruct (C5_pick Leaf (Some "bar") [("foo", shared)] shared_heap)
    as (Hnone & _).
  apply Hnone. right. exists "bar". split; reflexivity.
Defined.

(** C6: on a string node, and on [{"type": "foo"}]. *)
Lemma C6_dispatch_witness :
  JsonObjectNode_is (StringNode (string_at 6 9 "v")) = false /\
  dispatch sample_localize "type" any_object_selector
    (StringNode (string_at 6 9 "v")) root_context tt =
  {| result := StringNode (string_at 6 9 "v");
     state := tt;
     reports :=
       [expected_object sample_localize (StringNode (string_at 6 9 "v"))] |}
  /\ discriminant_of "type"
       [pair_at (string_at 24 30 "type") (StringNode (string_at 32 37 "foo"))]
     = Some "foo"
  /\ dispatch sample_localize "type" by_type
       (ObjectNode (slots_at 23 39)
          [pair_at (string_at 24 30 "type")
             (StringNode (string_at 32 37 "foo"))])
       root_context shared_heap =
     {| result :=
          result
            (record_of (RecordAt shared) shared_heap
               (ObjectNode (slots_at 23 39)
                  [pair_at (string_at 24 30 "type")
                     (StringNode (string_at 32 37 "foo"))])
               root_context
               (state (pick (Some "foo") [("foo", shared)] shared_heap)));
        state := state (pick (Some "foo") [("foo", shared)] shared_heap);
        reports :=
          [missing_property sample_localize sample_quote
             (node_range (slots_at 23 39)) "x";
           unknown_property sample_localize sample_quote
             (string_at 24 30 "type")] |}.
Proof.
  split; [reflexivity|].
  destruct (C6_dispatch unit sample_localize "type" any_object_selector
              (StringNode (string_at 6 9 "v")) root_context tt)
    as (Hother & _ & _).
  split; [exact (proj1 (Hother eq_refl))|].
  split; [reflexivity|].
  destruct (C6_dispatch (Heap Leaf) sample_localize "type" by_type
              (ObjectNode (slots_at 23 39)
                 [pair_at (string_at 24 30 "type")
                    (StringNode (string_at 32 37 "foo"))])
              root_context shared_heap)
    as (_ & Hobject & _).
  rewrite (Hobject _ _ eq_refl). vm_compute. reflexivity.
Defined.

(** C7 on the sample schema and node: [e] is deprecated. *)
Lemma C7_deprecated_properties_witness :
  key pair_e = Some key_e /\
  includes sample_keys (string_value key_e) = true /\
  is_deprecated (sample_values (string_value key_e) tt) = true /\
  reports
    (sample_record (fun _ => sample_properties) tt sample_node root_context
       tt) =
  [{| message := "json.checker.property.missing('d')";
      range := {| Range.start := 0; Range.end_ := 1 |};
      severity := ErrorSeverity.Error;
      info := None |};
   {| message := "json.checker.property.unknown('c')";
      range := {| Range.start := 11; Range.end_ := 14 |};
      severity := ErrorSeverity.Warning;
      info := None |};
   {| message := "json.checker.property.deprecated('e')";
      range := {| Range.start := 16; Range.end_ := 19 |};
      severity := ErrorSeverity.Hint;
      info := Some {| info_deprecated := true |} |}].
Proof.
  split; [reflexivity|]. split; [reflexivity|]. split; [reflexivity|].
  destruct (C7_deprecated_properties unit sample_localize sample_quote harvest
              sample_keys sample_values (slots_at 0 26) [pair_a; pair_c]
              pair_e [] key_e root_context tt eq_refl eq_refl eq_refl)
    as (Hobject & _).
  change (sample_record (fun _ => sample_properties) tt)
    with (sample_object (FixedKeys sample_keys sample_values)).
  unfold sample_object, sample_node.
  change [pair_a; pair_c; pair_e] with ([pair_a; pair_c] ++ pair_e :: []).
  rewrite Hobject. vm_compute. reflexivity.
Defined.

(** C9: the record object at [shared] is rewritten, and the heap is no
    longer the one the caller had. *)
Lemma C9_pick_rewrites_in_place_witness :
  get_property [("foo", shared)] (strip_namespace "foo") = Some shared /\
  result (pick (Some "foo") [("foo", shared)] shared_heap) = RecordAt shared /\
  read (state (pick (Some "foo") [("foo", shared)] shared_heap)) shared =
  [("x", Complex {| cp_checker := AnyValue; cp_opt := None;
                    cp_deprecated := None; cp_context := Some "foo" |})] /\
  state (pick (Some "foo") [("foo", shared)] shared_heap) <> shared_heap.
Proof.
  split; [reflexivity|].
  destruct (C9_pick_rewrites_in_place Leaf "foo" [("foo", shared)] shared
              shared_heap eq_refl)
    as (Hresult & _ & Hrecord & _ & Hchanged).
  split; [exact Hresult|]. split.
  - apply Hrecord. repeat constructor. cbn. tauto.
  - apply Hchanged. exists "x", (Bare AnyValue).
    split; [reflexivity|discriminate].
Defined.

(** C10: the sample node gives [a] and [e]; [a] comes first in the case
    table, after [x], which the node does not give.  No key of the table is
    an array index. *)
Lemma C10_having_first_present_witness :
  given (node_given_keys sample_node) "a" = true /\
  given (node_given_keys sample_node) "e" = true /\
  Forall (fun e => array_index e.1 = None) present_cases /\
  List.NoDup (Object_keys present_cases) /\
  present_cases =
    [("x", Direct [("x", Bare AnyValue)])]
      ++ ("a", Producer (ret [("a", Bare StringValue)]))
      :: [("e", Direct [("e", Bare AnyValue)])] /\
  having (S := unit) sample_localize sample_node root_context
    (Object_literal present_cases) tt =
  {| result := [("a", Some (Bare StringValue))];
     state := tt;
     reports := [] |}.
Proof.
  split; [reflexivity|]. split; [reflexivity|].
  assert (Hnamed : Forall (fun e => array_index e.1 = None) present_cases).
  { repeat constructor. }
  assert (Hnodup : List.NoDup (Object_keys present_cases)).
  { repeat constructor; cbn; intuition discriminate. }
  split; [exact Hnamed|]. split; [exact Hnodup|].
  assert (Hfirst :
    forall k', In k' (Object_keys
                        ([("x", Direct [("x", Bare AnyValue)])]
                           : JsRecord (Case unit Leaf))) ->
               given (node_given_keys sample_node) k' = false).
  { intros k' [<-|[]]. reflexivity. }
  destruct (C10_having_first_present unit sample_localize Leaf sample_node
              root_context present_cases
              [("x", Direct [("x", Bare AnyValue)])]
              [("e", Direct [("e", Bare AnyValue)])] "a"
              (Producer (ret [("a", Bare StringValue)])) tt
              eq_refl eq_refl Hfirst)
    as (Hhaving & _ & _ & _ & _ & _ & Hdeclared).
  split; [exact (Hdeclared Hnamed Hnodup)|exact Hhaving].
Defined.

(** C10, the order of the keys: the case table declared as
    [{ b: ..., 1: ... }] has the keys [1], [b] in this order, and on a
    node that gives both [having] returns the record of the case [1],
    which is declared last. *)
Lemma C10_declaration_order_differs :
  Object_keys declared_cases = ["b"; "1"] /\
  Object_keys (Object_literal declared_cases) = ["1"; "b"] /\
  given (node_given_keys node_b_1) "b" = true /\
  given (node_given_keys node_b_1) "1" = true /\
  having (S := unit) sample_localize node_b_1 root_context
    (Object_literal declared_cases) tt =
  {| result := [("1", Some (Bare StringValue))];
     state := tt;
     reports := [] |} /\
  result
    (having (S := unit) sample_localize node_b_1 root_context
       (Object_literal declared_cases) tt)
  <> defined [("b", Bare AnyValue)].
Proof.
  repeat split; try reflexivity. discriminate.
Qed.

(** * Further properties *)

(** ** [when], [pick] and the namespace prefix *)

Lemma strip_namespace_prefixed v : strip_namespace ("minecraft:" ++ v)%string = v.
Proof. reflexivity. Qed.

Lemma strip_namespace_plain v :
  strip_prefix "minecraft:" v = None -> strip_namespace v = v.
Proof. intros Hnone. unfold strip_namespace. rewrite Hnone. reflexivity. Qed.

Lemma includes_false keys k : includes keys k = false <-> ~ In k keys.
Proof.
  rewrite <- includes_In. destruct (includes keys k); split; congruence.
Qed.

(** X1. [when] returns the empty record for an undefined value, [properties]
    when the value without its [minecraft:] prefix is one of [values], and
    [notProperties] (the empty record by default) otherwise; a value and the
    same value with the prefix select the same record; and allowed values
    that are themselves written with the prefix are matched by no value that
    carries the prefix at most once. *)
Theorem X1_when_selects (C : Type) (values : list string)
    (properties : CheckerRecord C) (notProperties : option (CheckerRecord C)) :
  when None values properties notProperties = []
  /\ (forall v, In (strip_namespace v) values ->
                when (Some v) values properties notProperties = properties)
  /\ (forall v, ~ In (strip_namespace v) values ->
                when (Some v) values properties notProperties =
                default [] notProperties)
  /\ (forall v, strip_prefix "minecraft:" v = None ->
                when (Some ("minecraft:" ++ v)%string) values properties notProperties
                = when (Some v) values properties notProperties)
  /\ ((forall x, In x values -> strip_prefix "minecraft:" x <> None) ->
      forall v, strip_prefix "minecraft:" (strip_namespace v) = None ->
                when (Some v) values properties notProperties =
                default [] notProperties).
Proof.
  split; [reflexivity|]. split; [|split; [|split]].
  - intros v Hin. unfold when.
    apply includes_In in Hin. rewrite Hin. reflexivity.
  - intros v Hnot. unfold when.
    apply includes_false in Hnot. rewrite Hnot. reflexivity.
  - intros v Hplain. unfold when.
    rewrite strip_namespace_prefixed, (strip_namespace_plain v Hplain).
    reflexivity.
  - intros Hprefixed v Hplain. unfold when.
    destruct (includes values (strip_namespace v)) eqn:Hin; [|reflexivity].
    apply includes_In in Hin. exfalso.
    exact (Hprefixed _ Hin Hplain).
Qed.

(** X2. [pick] treats a value and the same value with the [minecraft:]
    prefix alike, and it removes the prefix once only: a value that carries
    it twice is looked up under the name that still carries it once. *)
Theorem X2_pick_namespace (C : Type) (cases : JsRecord Ref) (h : Heap C) v :
  (strip_prefix "minecraft:" v = None ->
     pick (Some ("minecraft:" ++ v)%string) cases h = pick (Some v) cases h)
  /\ (get_property cases ("minecraft:" ++ v)%string = None ->
      pick (Some ("minecraft:minecraft:" ++ v)%string) cases h =
      {| result := NewRecord []; state := h; reports := [] |}).
Proof.
  split.
  - intros Hplain. unfold pick.
    rewrite strip_namespace_prefixed, (strip_namespace_plain v Hplain).
    reflexivity.
  - intros Hnone. unfold pick.
    change (strip_namespace ("minecraft:minecraft:" ++ v)%string)
      with ("minecraft:" ++ v)%string.
    rewrite Hnone. reflexivity.
Qed.

(** ** [extract] *)

Lemma find_first {A : Type} (f : A -> bool) pre x post :
  f x = true -> (forall y, In y pre -> f y = false) ->
  List.find f (pre ++ x :: post) = Some x.
Proof.
  intros Hx. induction pre as [|y pre IH]; cbn; intros Hpre.
  - rewrite Hx. reflexivity.
  - rewrite (Hpre y) by (left; reflexivity).
    apply IH. intros z Hz. apply Hpre. right. exact Hz.
Qed.

Lemma find_none_all {A : Type} (f : A -> bool) items :
  (forall y, In y items -> f y = false) -> List.find f items = None.
Proof.
  induction items as [|y items IH]; cbn; intros Hall; [reflexivity|].
  rewrite (Hall y) by (left; reflexivity).
  apply IH. intros z Hz. apply Hall. right. exact Hz.
Qed.

(** X3. [extract] looks at the first pair whose key is the given name and at
    no other: its result is the string value of that pair when the value of
    that pair is a string node and undefined otherwise, whatever the later
    pairs with the same key hold; it is undefined when no pair has the key;
    and it does not depend on the slots of the nodes. *)
Theorem X3_extract_first_pair name (pre post : PairNodes) p :
  (key_is name p = true ->
   (forall q, In q pre -> key_is name q = false) ->
   extract name (pre ++ p :: post) =
     match value p with
     | Some (StringNode n) => Some (string_value n)
     | _ => None
     end)
  /\ (forall children,
        (forall q, In q children -> key_is name q = false) ->
        extract name children = None)
  /\ (forall children,
        extract name (map erase_pair children) = extract name children).
Proof.
  split; [|split].
  - intros Hp Hpre. unfold extract. rewrite find_first by assumption.
    destruct p as [k [[| |]|]]; reflexivity.
  - intros children Hnone. unfold extract.
    rewrite find_none_all by exact Hnone. reflexivity.
  - intros children. unfold extract.
    rewrite !string_value_of_discriminant. apply discriminant_erase.
Qed.

(** ** The object checker: dynamic keys, expectations, hover texts *)

Lemma string_append_assoc (a b c : string) :
  ((a ++ b) ++ c = a ++ b ++ c)%string.
Proof.
  induction a as [|x a IH]; [reflexivity|].
  change (String x ((a ++ b) ++ c) = String x (a ++ b ++ c))%string.
  f_equal. exact IH.
Qed.

Lemma forEach_update_invariant {S A B : Type} (f : A -> Eff S A) (g : A -> B)
    items s :
  (forall x s', g (result (f x s')) = g x) ->
  map g (result (forEach_update f items s)) = map g items.
Proof.
  intros Hf. revert s. induction items as [|x items IH]; intros s.
  - reflexivity.
  - rewrite forEach_update_cons. cbn [result map]. rewrite Hf, IH.
    reflexivity.
Qed.

Lemma forEach_update_Forall2 {S A : Type} (f : A -> Eff S A)
    (R : A -> A -> Prop) items s :
  (forall x s', R x (result (f x s'))) ->
  Forall2 R items (result (forEach_update f items s)).
Proof.
  intros Hf. revert s. induction items as [|x items IH]; intros s.
  - constructor.
  - rewrite forEach_update_cons. cbn [result]. constructor; [apply Hf|apply IH].
Qed.

Lemma forEach_update_state {S A : Type} (f : A -> Eff S A) items s :
  (forall x s', state (f x s') = s') ->
  state (forEach_update f items s) = s.
Proof.
  intros Hf. revert s. induction items as [|x items IH]; intros s.
  - reflexivity.
  - rewrite forEach_update_cons. cbn [state]. rewrite Hf. apply IH.
Qed.

Lemma forEach_update_silent {S A : Type} (f : A -> Eff S A) items s :
  (forall x s', reports (f x s') = []) ->
  reports (forEach_update f items s) = [].
Proof.
  intros Hf. revert s. induction items as [|x items IH]; intros s.
  - reflexivity.
  - rewrite forEach_update_cons. cbn [reports]. rewrite Hf, IH. reflexivity.
Qed.

Section Further.
Variable S : Type.
Variable localize : string -> list LocaleParam -> string.
Variable localeQuote : string -> string.
Variable expectation :
  JsonChecker S -> JsonCheckerContext -> S -> option (list JsonExpectation).

Abbreviation object := (object localize localeQuote expectation).
Abbreviation record := (record localize localeQuote expectation).
Abbreviation check_property := (check_property localize localeQuote).
Abbreviation missing_property := (missing_property localize localeQuote).
Abbreviation deprecated_property := (deprecated_property localize localeQuote).
Abbreviation expected_slots := (expected_slots expectation).
Abbreviation built := (built localize localeQuote expectation).

Implicit Types (values : string -> S -> Property S).
Implicit Types (ctx : JsonCheckerContext) (s : S).

Lemma check_dynamic_outcome (keys : JsonChecker S) values ctx prop k s :
  key prop = Some k ->
  check_dynamic keys values ctx prop s =
  match value prop with
  | None =>
      {| result :=
           {| key :=
                Some (as_string_node (result (keys (StringNode k) ctx s)) k);
              value := None |};
         state := state (keys (StringNode k) ctx s);
         reports := reports (keys (StringNode k) ctx s) |}
  | Some v =>
      {| result :=
           {| key :=
                Some (as_string_node (result (keys (StringNode k) ctx s)) k);
              value :=
                Some
                  (result
                     (checker_of
                        (values
                           (string_value
                              (as_string_node
                                 (result (keys (StringNode k) ctx s)) k))
                           (state (keys (StringNode k) ctx s)))
                        v ctx (state (keys (StringNode k) ctx s)))) |};
         state :=
           state
             (checker_of
                (values
                   (string_value
                      (as_string_node (result (keys (StringNode k) ctx s)) k))
                   (state (keys (StringNode k) ctx s)))
                v ctx (state (keys (StringNode k) ctx s)));
         reports :=
           reports (keys (StringNode k) ctx s)
           ++ reports
                (checker_of
                   (values
                      (string_value
                         (as_string_node
                            (result (keys (StringNode k) ctx s)) k))
                      (state (keys (StringNode k) ctx s)))
                   v ctx (state (keys (StringNode k) ctx s))) |}
  end.
Proof.
  intros Hk. unfold check_dynamic. rewrite Hk. unfold bind, gets, ret.
  destruct (value prop) as [v|]; cbn [result state reports];
    rewrite ?app_nil_r; reflexivity.
Qed.

Lemma check_dynamic_keyless (keys : JsonChecker S) values ctx prop s :
  key prop = None ->
  check_dynamic keys values ctx prop s =
  {| result := prop; state := s; reports := [] |}.
Proof. intros Hk. unfold check_dynamic. rewrite Hk. reflexivity. Qed.

Lemma object_dynamic_split (keys : JsonChecker S) values slots pre prop post
    ctx s :
  reports
    (object (DynamicKeys keys values) (ObjectNode slots (pre ++ prop :: post))
       ctx s) =
  reports (forEach_update (check_dynamic keys values ctx) pre s)
  ++ reports
       (check_dynamic keys values ctx prop
          (state (forEach_update (check_dynamic keys values ctx) pre s)))
  ++ reports
       (forEach_update (check_dynamic keys values ctx) post
          (state
             (check_dynamic keys values ctx prop
                (state (forEach_update (check_dynamic keys values ctx) pre s))))).
Proof.
  rewrite object_dynamic. cbn zeta. cbn [reports].
  rewrite forEach_update_app, forEach_update_cons. reflexivity.
Qed.

(** X4. In the dynamic-key mode the reports on an object node are, pair by
    pair in input order, the reports of the key checker run on the key node
    followed by the reports of the value checker, which is the one that
    [values] gives for the text of the key and which runs on the value with
    the context of the object itself; a pair without a value runs the key
    checker only and a pair without a key runs nothing.  The mode adds no
    diagnostic of its own: with a key checker and value checkers that report
    nothing, nothing is reported, whatever keys the node gives. *)
Theorem X4_dynamic_keys (keys : JsonChecker S) values slots pre prop post
    ctx s :
  let o :=
    object (DynamicKeys keys values) (ObjectNode slots (pre ++ prop :: post))
      ctx s in
  let step := check_dynamic keys values ctx in
  let before := forEach_update step pre s in
  (key prop = None ->
     reports o =
     reports before ++ reports (forEach_update step post (state before)))
  /\ (forall k,
        key prop = Some k ->
        let keyRun := keys (StringNode k) ctx (state before) in
        let k' := as_string_node (result keyRun) k in
        (value prop = None ->
           reports o =
           reports before ++ reports keyRun
           ++ reports (forEach_update step post (state keyRun)))
        /\ (forall v,
              value prop = Some v ->
              let valueRun :=
                checker_of (values (string_value k') (state keyRun)) v ctx
                  (state keyRun) in
              reports o =
              reports before ++ reports keyRun ++ reports valueRun
              ++ reports (forEach_update step post (state valueRun))))
  /\ (silent keys ->
      (forall k s', silent (checker_of (values k s'))) ->
      forall children,
        reports
          (object (DynamicKeys keys values) (ObjectNode slots children) ctx s)
        = []).
Proof.
  cbn zeta. split; [|split].
  - intros Hk. rewrite object_dynamic_split.
    rewrite check_dynamic_keyless by exact Hk. reflexivity.
  - intros k Hk. split.
    + intros Hv. rewrite object_dynamic_split.
      rewrite (check_dynamic_outcome _ _ _ _ k) by exact Hk.
      rewrite Hv. reflexivity.
    + intros v Hv. rewrite object_dynamic_split.
      rewrite (check_dynamic_outcome _ _ _ _ k) by exact Hk.
      rewrite Hv. cbn [state reports]. rewrite <- app_assoc. reflexivity.
  - intros Hkeys Hvalues children. rewrite object_dynamic. cbn zeta.
    cbn [reports]. apply forEach_update_silent. intros p s'.
    destruct (key p) as [k|] eqn:Hk.
    + rewrite (check_dynamic_outcome _ _ _ _ k) by exact Hk.
      destruct (value p) as [v|]; cbn [reports].
      * rewrite Hkeys, Hvalues. reflexivity.
      * apply Hkeys.
    + rewrite check_dynamic_keyless by exact Hk. reflexivity.
Qed.

Lemma typedocs_object (schema : ObjectSchema S) ctx s :
  typedocs (Some (object_expectation expectation schema ctx s)) = "Object".
Proof.
  unfold object_expectation.
  destruct (depth_guard ctx), schema; reflexivity.
Qed.

Lemma object_result_slots (schema : ObjectSchema S) node ctx s :
  slots_of (result (object schema node ctx s)) =
  {| node_range := node_range (slots_of node);
     expectation_slot := Some (object_expectation expectation schema ctx s);
     hover := hover (slots_of node) |}.
Proof.
  destruct node as [slots children|[slots v]|kind slots items].
  - destruct schema as [|keys values|keys values].
    + reflexivity.
    + rewrite object_fixed. reflexivity.
    + rewrite object_dynamic. reflexivity.
  - rewrite object_not_an_object by reflexivity. reflexivity.
  - rewrite object_not_an_object by reflexivity. reflexivity.
Qed.

(** X5. Whatever the node is, an object checker leaves its range and hover
    text alone and writes as its expectation one descriptor of type
    [json:object] with the label [Object].  Past the depth guard
    ([ctx.depth > 0]) the descriptor has neither fields nor keys and
    [expectation] is not consulted; otherwise, in the fixed-key mode, it has
    one field per schema key in schema order, flagged optional when the spec
    is optional or deprecated (so every deprecated field is optional too),
    and in the dynamic-key mode its keys are the string expectations of the
    key checker. *)
Theorem X5_expectation_descriptor (schema : ObjectSchema S) node ctx s :
  slots_of (result (object schema node ctx s)) =
    {| node_range := node_range (slots_of node);
       expectation_slot := Some (object_expectation expectation schema ctx s);
       hover := hover (slots_of node) |}
  /\ (exists fields keys,
        object_expectation expectation schema ctx s =
        [Expectation "json:object" "Object" fields keys])
  /\ (depth_guard ctx = false ->
      object_expectation expectation schema ctx s =
      [Expectation "json:object" "Object" None None])
  /\ (forall keys values,
        schema = FixedKeys keys values ->
        depth_guard ctx = true ->
        exists fields,
          object_expectation expectation schema ctx s =
          [Expectation "json:object" "Object" (Some fields) None]
          /\ map field_key fields = keys
          /\ forall f,
               In f fields ->
               field_value f =
                 expectation (checker_of (values (field_key f) s)) ctx s
               /\ field_opt f = is_optional (values (field_key f) s)
               /\ field_deprecated f = is_deprecated (values (field_key f) s)
               /\ (field_deprecated f = true -> field_opt f = true))
  /\ (forall keys values,
        schema = DynamicKeys keys values ->
        depth_guard ctx = true ->
        object_expectation expectation schema ctx s =
        [Expectation "json:object" "Object" None
           (List.filter JsonStringExpectation_is <$> expectation keys ctx s)]
        /\ forall es e,
             List.filter JsonStringExpectation_is <$> expectation keys ctx s
               = Some es ->
             In e es -> expectation_type e = "json:string").
Proof.
  split; [apply object_result_slots|]. split; [|split; [|split]].
  - unfold object_expectation. destruct (depth_guard ctx), schema; eauto.
  - intros Hguard. unfold object_expectation. rewrite Hguard. reflexivity.
  - intros keys values -> Hguard. unfold object_expectation. rewrite Hguard.
    exists (map (field_of S expectation values ctx s) keys).
    split; [reflexivity|]. split.
    + rewrite map_map. cbn [field_of field_key]. apply map_id.
    + intros f Hf. apply in_map_iff in Hf. destruct Hf as (k & <- & _).
      cbn [field_of field_key field_value field_opt field_deprecated].
      repeat split.
      destruct (values k s) as [c|cp]; cbn; [discriminate|].
      intros ->. apply orb_true_r.
  - intros keys values -> Hguard. unfold object_expectation. rewrite Hguard.
    split; [reflexivity|].
    intros es e Hes He. destruct (expectation keys ctx s) as [l|];
      [|discriminate]. cbn in Hes. injection Hes as <-.
    apply filter_In in He. destruct He as [_ He].
    unfold JsonStringExpectation_is in He. apply String.eqb_eq in He.
    exact He.
Qed.

(** X6. A pair whose key is a schema key and whose property is checked by
    an object checker gets, on its key, the hover text that names the
    documentation path of the property with the type [Object], followed by
    the documentation text when there is one; this holds whether the pair
    has a value or not and whether the value is an object or not.  The path
    is the path of the context, a dot and the key; a context override of the
    spec comes between the two unless it is the empty string. *)
Theorem X6_object_property_hover keys values ctx prop k
    (schema : ObjectSchema S) s :
  key prop = Some k ->
  includes keys (string_value k) = true ->
  checker_of (values (string_value k) s) = object schema ->
  let path := property_context ctx (values (string_value k) s)
                (string_value k) in
  let doc := localize ("json.doc." ++ path)%string [] in
  key (result (check_property keys values ctx prop s)) =
    Some
      (set_hover k
         ("```typescript" ++ newline ++ path ++ ": " ++ "Object" ++ newline
          ++ "```"
          ++ match doc with
             | EmptyString => EmptyString
             | _ => newline ++ "******" ++ newline ++ doc
             end)%string)
  /\ (forall c,
        values (string_value k) s = Bare c ->
        path = (context ctx ++ "." ++ string_value k)%string)
  /\ (forall cp name,
        values (string_value k) s = Complex cp ->
        cp_context cp = Some name ->
        name <> EmptyString ->
        path = (context ctx ++ "." ++ name ++ "." ++ string_value k)%string)
  /\ (forall cp,
        values (string_value k) s = Complex cp ->
        cp_context cp = Some EmptyString \/ cp_context cp = None ->
        path = (context ctx ++ "." ++ string_value k)%string).
Proof.
  intros Hk Hin Hchecker path doc. split; [|split; [|split]].
  - rewrite (check_property_declared _ _ _ _ _ _ _ k) by assumption.
    cbn zeta. cbn [result]. unfold checked_pair. cbn [key].
    fold path. fold doc. unfold property_call. rewrite Hchecker.
    unfold hover_text. rewrite object_result_slots. cbn [expectation_slot].
    rewrite typedocs_object. reflexivity.
  - intros c Hspec. unfold path, property_context. rewrite Hspec.
    reflexivity.
  - intros cp name Hspec Hname Hnonempty. unfold path, property_context.
    rewrite Hspec, Hname.
    destruct name as [|a name]; [congruence|]. cbn [nonempty default].
    rewrite string_append_assoc. reflexivity.
  - intros cp Hspec [Hname|Hname]; unfold path, property_context;
      rewrite Hspec, Hname; reflexivity.
Qed.

Lemma check_property_frame keys values ctx prop s :
  pair_frame (result (check_property keys values ctx prop s)) =
  pair_frame prop.
Proof.
  destruct (key prop) as [k|] eqn:Hk.
  - destruct (includes keys (string_value k)) eqn:Hin.
    + rewrite (check_property_declared _ _ _ _ _ _ _ k) by assumption.
      cbn zeta. cbn [result]. unfold checked_pair, pair_frame.
      cbn [key value]. rewrite Hk.
      destruct (value prop); reflexivity.
    + rewrite (check_property_unknown _ _ _ _ _ _ _ k) by assumption.
      reflexivity.
  - unfold check_property. rewrite Hk. reflexivity.
Qed.

Lemma given_keys_frame children children' :
  map pair_frame children' = map pair_frame children ->
  given_keys children' = given_keys children.
Proof.
  intros Hframe. unfold given_keys.
  assert (Hkeys : forall items,
            map (fun n => string_value <$> key n) items =
            map (fun f => snd <$> fst f) (map pair_frame items)).
  { intros items. rewrite map_map. apply map_ext.
    intros [[k|] v]; reflexivity. }
  rewrite !Hkeys, Hframe. reflexivity.
Qed.

(** X7. Whatever the property checkers do, a fixed-key object checker
    applied to an object node hands back an object node with the same pairs
    in the same order: every key keeps its text, its range and its
    expectation, a pair has a value after the check exactly when it had one
    before, and a pair without a key or with a key that the schema does not
    declare comes back unchanged, hover text included.  The given keys of
    the node are therefore the same after the check as before. *)
Theorem X7_fixed_keys_frame keys values slots children ctx s :
  exists children',
    result (object (FixedKeys keys values) (ObjectNode slots children) ctx s)
    = ObjectNode (expected_slots (FixedKeys keys values) slots ctx s) children'
    /\ map pair_frame children' = map pair_frame children
    /\ length children' = length children
    /\ given_keys children' = given_keys children
    /\ Forall2
         (fun p p' =>
            key p = None \/
            (exists k, key p = Some k /\
                       includes keys (string_value k) = false) ->
            p' = p)
         children children'.
Proof.
  exists (result (forEach_update (check_property keys values ctx) children s)).
  assert (Hframe :
    map pair_frame
      (result (forEach_update (check_property keys values ctx) children s)) =
    map pair_frame children).
  { apply forEach_update_invariant. intros p s'.
    apply check_property_frame. }
  split; [rewrite object_fixed; reflexivity|].
  split; [exact Hframe|]. split; [|split].
  - rewrite <- (length_map pair_frame), Hframe. apply length_map.
  - apply given_keys_frame, Hframe.
  - apply forEach_update_Forall2. intros p s' [Hk|(k & Hk & Hin)].
    + unfold check_property. rewrite Hk. reflexivity.
    + rewrite (check_property_unknown _ _ _ _ _ _ _ k) by assumption.
      reflexivity.
Qed.

(** X8. A pair that has a schema key but no value counts as given, and its
    property checker runs on the null placeholder, whose range is the empty
    range at offset 0; the pair still has no value afterwards.  When that
    checker is an object checker it therefore reports the type mismatch at
    the range from 0 to 0, not at the pair, and leaves the captured state
    alone. *)
Theorem X8_key_without_value keys values ctx prop k s :
  key prop = Some k ->
  value prop = None ->
  includes keys (string_value k) = true ->
  let spec := values (string_value k) s in
  let call :=
    checker_of spec null_placeholder
      (with_context ctx (property_context ctx spec (string_value k))) s in
  let o := check_property keys values ctx prop s in
  given (given_keys [prop]) (string_value k) = true
  /\ value (result o) = None
  /\ state o = state call
  /\ reports o =
     (if is_deprecated spec then [deprecated_property k] else [])
     ++ reports call
  /\ (forall schema : ObjectSchema S,
        checker_of spec = object schema ->
        state o = s /\
        reports o =
        (if is_deprecated spec then [deprecated_property k] else [])
        ++ [{| message :=
                 localize "expected" [ParamText (localize "object" [])];
               range := {| Range.start := 0; Range.end_ := 0 |};
               severity := ErrorSeverity.Error;
               info := None |}]).
Proof.
  intros Hk Hv Hin spec call o.
  assert (Ho :
    o =
    {| result := checked_pair localize ctx spec prop k s;
       state := state (property_call ctx spec prop k s);
       reports :=
         (if is_deprecated spec then [deprecated_property k] else [])
         ++ reports (property_call ctx spec prop k s) |}).
  { unfold o. rewrite (check_property_declared _ _ _ _ _ _ _ k) by assumption.
    reflexivity. }
  assert (Hcall : property_call ctx spec prop k s = call).
  { unfold property_call, call. rewrite Hv. reflexivity. }
  rewrite Hcall in Ho. rewrite Ho. cbn [result state reports].
  split; [|split; [|split; [|split]]].
  - unfold given_keys, given. cbn [map existsb]. rewrite Hk. cbn.
    rewrite String.eqb_refl. reflexivity.
  - unfold checked_pair. cbn [value]. rewrite Hv. reflexivity.
  - reflexivity.
  - reflexivity.
  - intros schema Hchecker. unfold call. rewrite Hchecker.
    rewrite object_not_an_object by reflexivity. split; reflexivity.
Qed.

Lemma filter_declared_keys (properties : CheckerRecord (JsonChecker S))
    (f : string -> Property S -> bool) :
  List.NoDup (Object_keys properties) ->
  List.filter
    (fun k =>
       f k (default (Bare no_checker) (get_property properties k)))
    (Object_keys properties) =
  Object_keys (List.filter (fun e => f e.1 e.2) properties).
Proof.
  unfold Object_keys.
  induction properties as [|[k p] properties IH]; intros Hnodup;
    [reflexivity|].
  change (((k, p) :: properties).*1) with (k :: properties.*1) in Hnodup |- *.
  apply List.NoDup_cons_iff in Hnodup.
  destruct Hnodup as [Hfresh Hnodup].
  cbn [List.filter].
  rewrite (filter_ext_in _
             (fun k' =>
                f k' (default (Bare no_checker) (get_property properties k')))
             properties.*1).
  - rewrite (IH Hnodup). cbn [get_property fst snd].
    rewrite String.eqb_refl.
    change (default (Bare no_checker) (Some p)) with p.
    destruct (f k p); reflexivity.
  - intros k' Hin. cbn [get_property].
    destruct (String.eqb k k') eqn:Heq; [|reflexivity].
    apply String.eqb_eq in Heq. subst k'. contradiction.
Qed.

(** X9. [properties] being a record in the order of
    [Object.keys(properties)], which puts the keys that are array indices
    first, and its keys being distinct, as the keys of an object are:
    [record] asks of each schema key the property stored under it and never
    the fallback; the keys it reports as missing are, in the order of
    [Object.keys(properties)], the keys whose spec is neither optional nor
    deprecated and that the node does not give; and on the empty object
    these missing-property diagnostics are all it reports, the state being
    left as it is. *)
Theorem X9_record_of_literal (properties : CheckerRecord (JsonChecker S))
    s0 slots children ctx s :
  List.NoDup (Object_keys properties) ->
  let values :=
    fun key (_ : S) =>
      default (Bare no_checker) (get_property properties key) in
  record (fun _ => properties) s0 =
    object (FixedKeys (Object_keys properties) values)
  /\ (forall k p, In (k, p) properties -> values k s = p)
  /\ missing_keys (Object_keys properties) values children s =
     Object_keys
       (List.filter
          (fun e => negb (is_optional e.2) &&
                    negb (given (given_keys children) e.1))
          properties)
  /\ record (fun _ => properties) s0 (ObjectNode slots []) ctx s =
     {| result :=
          ObjectNode
            (expected_slots (FixedKeys (Object_keys properties) values) slots
               ctx s) [];
        state := s;
        reports :=
          map (missing_property (node_range slots))
            (Object_keys
               (List.filter (fun e => negb (is_optional e.2)) properties)) |}.
Proof.
  intros Hnodup values.
  assert (Hmissing : forall items,
    missing_keys (Object_keys properties) values items s =
    Object_keys
      (List.filter
         (fun e => negb (is_optional e.2) &&
                   negb (given (given_keys items) e.1))
         properties)).
  { intros items. unfold missing_keys, values.
    apply (filter_declared_keys properties
             (fun k p => negb (is_optional p) &&
                         negb (given (given_keys items) k))).
    exact Hnodup. }
  split; [reflexivity|]. split; [|split].
  - intros k p Hin. unfold values.
    destruct (get_property properties k) as [p'|] eqn:Hget.
    + destruct (get_property_split _ _ _ Hget) as (pre & post & -> & Hnot).
      apply in_app_or in Hin. destruct Hin as [Hin|[Hin|Hin]].
      * exfalso. apply Hnot. unfold Object_keys.
        apply (in_map fst) in Hin. exact Hin.
      * injection Hin as ->. reflexivity.
      * exfalso. unfold Object_keys in Hnodup.
        rewrite fmap_app in Hnodup. cbn in Hnodup.
        apply List.NoDup_remove_2 in Hnodup. apply Hnodup.
        apply in_or_app. right. apply (in_map fst) in Hin. exact Hin.
    + exfalso. apply (in_map fst) in Hin.
      pose proof (proj1 (get_property_In properties k) Hin) as [v Hv].
      congruence.
  - apply Hmissing.
  - change (record (fun _ => properties) s0)
      with (object (FixedKeys (Object_keys properties) values)).
    rewrite object_fixed. cbn zeta. cbn [forEach_update ret result state reports].
    rewrite app_nil_r, Hmissing. f_equal. f_equal. f_equal.
    apply filter_ext. intros e. cbn. apply andb_true_r.
Qed.

Lemma check_property_state keys values ctx prop s :
  (forall k s', preserves_state (checker_of (values k s'))) ->
  state (check_property keys values ctx prop s) = s.
Proof.
  intros Hvalues. destruct (key prop) as [k|] eqn:Hk.
  - destruct (includes keys (string_value k)) eqn:Hin.
    + rewrite (check_property_declared _ _ _ _ _ _ _ k) by assumption.
      cbn zeta. cbn [state]. apply Hvalues.
    + rewrite (check_property_unknown _ _ _ _ _ _ _ k) by assumption.
      reflexivity.
  - unfold check_property. rewrite Hk. reflexivity.
Qed.

Lemma check_dynamic_state (keys : JsonChecker S) values ctx prop s :
  preserves_state keys ->
  (forall k s', preserves_state (checker_of (values k s'))) ->
  state (check_dynamic keys values ctx prop s) = s.
Proof.
  intros Hkeys Hvalues. destruct (key prop) as [k|] eqn:Hk.
  - rewrite (check_dynamic_outcome _ _ _ _ k) by exact Hk.
    destruct (value prop) as [v|]; cbn [state].
    + rewrite Hvalues. apply Hkeys.
    + apply Hkeys.
  - rewrite check_dynamic_keyless by exact Hk. reflexivity.
Qed.

Lemma fixed_keys_state keys values :
  (forall k s, preserves_state (checker_of (values k s))) ->
  preserves_state (object (FixedKeys keys values)).
Proof.
  intros Hvalues node ctx s.
  destruct node as [slots children|[slots v]|kind slots items].
  - rewrite object_fixed. cbn zeta. cbn [state].
    apply forEach_update_state. intros p s'.
    apply check_property_state, Hvalues.
  - rewrite object_not_an_object by reflexivity. reflexivity.
  - rewrite object_not_an_object by reflexivity. reflexivity.
Qed.


End Further.

(** ** [pick] twice, and [having] *)

Lemma set_property_same {V : Type} (o : JsRecord V) k v :
  get_property o k = Some v -> set_property o k v = o.
Proof.
  induction o as [|[k' v'] o IH]; cbn; [discriminate|].
  destruct (String.eqb k' k); [intros [= ->]; reflexivity|].
  intros Hget. rewrite (IH Hget). reflexivity.
Qed.

Lemma find_ext {A : Type} (f g : A -> bool) items :
  (forall x, f x = g x) -> List.find f items = List.find g items.
Proof.
  intros Hfg. induction items as [|x items IH]; [reflexivity|].
  cbn. rewrite Hfg, IH. reflexivity.
Qed.

Section PickTwice.
Variable C : Type.

Implicit Types (h : Heap C) (r : Ref).

Lemma forEach_pick_settled r name keys h :
  (forall key p,
     get_property (read h r) key = Some p -> picked name p = p) ->
  forEach (pick_property r name) keys h =
  {| result := tt; state := h; reports := [] |}.
Proof.
  intros Hsettled. induction keys as [|k keys IH]; [reflexivity|].
  cbn [forEach]. unfold bind.
  assert (Hstep :
    pick_property r name k h = {| result := tt; state := h; reports := [] |}).
  { unfold pick_property.
    destruct (get_property (read h r) k) as [p|] eqn:Hget; [|reflexivity].
    rewrite (Hsettled k p Hget), (set_property_same _ _ _ Hget).
    unfold read in Hget |- *.
    destruct (h !! r) as [o|] eqn:Hr; [|discriminate].
    cbn [default]. rewrite (insert_id h r o Hr). reflexivity. }
  rewrite Hstep. cbn [state reports]. rewrite IH. reflexivity.
Qed.

Lemma pick_again (v : option string) (cases : JsRecord Ref) h :
  pick v cases (state (pick v cases h)) = pick v cases h.
Proof.
  destruct v as [v|]; [|reflexivity].
  destruct (get_property cases (strip_namespace v)) as [r|] eqn:Hcase.
  - destruct (pick_found C v cases r h Hcase)
      as (Hresult & Hreports & _ & _ & Hget).
    cbn zeta in Hresult, Hreports, Hget.
    rewrite <- (outcome_eq (pick (Some v) cases h)) at 2.
    rewrite Hresult, Hreports.
    unfold pick at 1. rewrite Hcase. unfold bind, gets, ret.
    cbn [result state reports].
    rewrite forEach_pick_settled; [reflexivity|].
    intros key p Hp. rewrite Hget in Hp.
    destruct (get_property (read h r) key) as [p0|]; [|discriminate].
    injection Hp as <-. apply picked_idempotent.
  - unfold pick. rewrite Hcase. reflexivity.
Qed.

Lemma pick_silent (v : option string) (cases : JsRecord Ref) h :
  reports (pick v cases h) = [].
Proof.
  destruct v as [v|]; [|reflexivity].
  destruct (get_property cases (strip_namespace v)) as [r|] eqn:Hcase.
  - apply (pick_found C v cases r h Hcase).
  - unfold pick. rewrite Hcase. reflexivity.
Qed.

(** X11. [pick] is idempotent on the case table: a second call with the same
    value, or with a value that differs from it by the [minecraft:] prefix
    only, returns the same record and leaves every record object as the
    first call left it. *)
Theorem X11_pick_twice v v' (cases : JsRecord Ref) h :
  strip_namespace v' = strip_namespace v ->
  pick (Some v') cases (state (pick (Some v) cases h)) =
  pick (Some v) cases h.
Proof.
  intros Hname.
  destruct (get_property cases (strip_namespace v)) as [r|] eqn:Hcase.
  - destruct (pick_found C v cases r h Hcase)
      as (Hresult & Hreports & _ & _ & Hget).
    cbn zeta in Hresult, Hreports, Hget.
    rewrite <- (outcome_eq (pick (Some v) cases h)) at 2.
    rewrite Hresult, Hreports.
    unfold pick at 1. rewrite Hname, Hcase. unfold bind, gets, ret.
    cbn [result state reports].
    rewrite forEach_pick_settled; [reflexivity|].
    intros key p Hp. rewrite Hget in Hp.
    destruct (get_property (read h r) key) as [p0|]; [|discriminate].
    injection Hp as <-. apply picked_idempotent.
  - unfold pick. rewrite Hname, Hcase. reflexivity.
Qed.

End PickTwice.

Section Having.
Variable S : Type.
Variable localize : string -> list LocaleParam -> string.

(** X12. The record that [having] selects, and what it reports, depend on
    which keys the node gives and not on their order: permuting the pairs of
    an object node changes neither. *)
Theorem X12_having_order_of_pairs (C : Type) slots children children' ctx
    (cases : JsRecord (Case S C)) (s : S) :
  Permutation children children' ->
  having localize (ObjectNode slots children) ctx cases s =
  having localize (ObjectNode slots children') ctx cases s.
Proof.
  intros Hperm. unfold having. cbn [node_given_keys slots_of].
  rewrite (find_ext (given (given_keys children))
             (given (given_keys children'))); [reflexivity|].
  intros k. apply given_Permutation, Permutation_map, Hperm.
Qed.


End Having.

(** ** The further properties at the sample inputs *)

Lemma X1_when_selects_witness :
  In (strip_namespace "minecraft:foo") ["foo"] /\
  when (Some "minecraft:foo") ["foo"] [("x", Bare AnyValue)] None =
    [("x", Bare AnyValue)] /\
  when (Some "bar") ["foo"] [("x", Bare AnyValue)] None = [] /\
  when (Some "minecraft:foo") ["minecraft:foo"] [("x", Bare AnyValue)] None
    = [] /\
  when (Some "minecraft:foo") ["foo"] [("x", Bare AnyValue)] None =
  when (Some "foo") ["foo"] [("x", Bare AnyValue)] None.
Proof.
  assert (Hin : In (strip_namespace "minecraft:foo") ["foo"])
    by (left; reflexivity).
  split; [exact Hin|].
  destruct (X1_when_selects Leaf ["foo"] [("x", Bare AnyValue)] None)
    as (_ & Hmatch & Hother & Hprefix & _).
  destruct (X1_when_selects Leaf ["minecraft:foo"] [("x", Bare AnyValue)] None)
    as (_ & _ & _ & _ & Hprefixed).
  split; [exact (Hmatch "minecraft:foo" Hin)|].
  split.
  - apply (Hother "bar"). intros [Heq|[]]. discriminate Heq.
  - split.
    + apply (Hprefixed); [|reflexivity].
      intros x [<-|[]]. discriminate.
    + exact (Hprefix "foo" eq_refl).
Defined.

Lemma X2_pick_namespace_witness :
  strip_prefix "minecraft:" "foo" = None /\
  pick (Some "minecraft:foo") [("foo", shared)] shared_heap =
  pick (Some "foo") [("foo", shared)] shared_heap /\
  pick (Some "minecraft:minecraft:foo") [("foo", shared)] shared_heap =
  {| result := NewRecord []; state := shared_heap; reports := [] |}.
Proof.
  split; [reflexivity|].
  destruct (X2_pick_namespace Leaf [("foo", shared)] shared_heap "foo")
    as [Hsame Htwice].
  split; [exact (Hsame eq_refl)|exact (Htwice eq_refl)].
Defined.

Lemma X3_extract_first_pair_witness :
  key_is "type"
    (pair_at (string_at 1 7 "type") (OtherNode JsonNumber (slots_at 9 10) []))
    = true /\
  extract "type" number_then_string = None /\
  extract "kind" number_then_string = None.
Proof.
  split; [reflexivity|].
  destruct (X3_extract_first_pair "type" []
              [pair_at (string_at 12 18 "type")
                 (StringNode (string_at 20 25 "foo"))]
              (pair_at (string_at 1 7 "type")
                 (OtherNode JsonNumber (slots_at 9 10) [])))
    as (Hfirst & _ & _).
  destruct (X3_extract_first_pair "kind" [] [] pair_a) as (_ & Hnone & _).
  split.
  - apply Hfirst; [reflexivity|]. intros q [].
  - apply Hnone. intros q [<-|[<-|[]]]; reflexivity.
Defined.

Lemma X4_dynamic_keys_witness :
  key (pair_at (string_at 11 14 "d") (ObjectNode (slots_at 16 18) []))
    = Some (string_at 11 14 "d") /\
  reports (string_map mixed_node root_context tt) =
  [{| message := "expected(string())";
      range := {| Range.start := 16; Range.end_ := 18 |};
      severity := ErrorSeverity.Error;
      info := None |}].
Proof.
  split; [reflexivity|].
  destruct (X4_dynamic_keys unit sample_localize sample_quote harvest
              (leaf_checker StringValue)
              (fun _ _ => Bare (leaf_checker StringValue))
              (slots_at 0 20) [pair_a]
              (pair_at (string_at 11 14 "d") (ObjectNode (slots_at 16 18) []))
              [] root_context tt)
    as (_ & Hkey & _).
  destruct (Hkey (string_at 11 14 "d") eq_refl) as [_ Hvalue].
  unfold string_map, sample_object, mixed_node.
  change [pair_a;
          pair_at (string_at 11 14 "d") (ObjectNode (slots_at 16 18) [])]
    with ([pair_a]
          ++ pair_at (string_at 11 14 "d") (ObjectNode (slots_at 16 18) [])
             :: []).
  rewrite (Hvalue (ObjectNode (slots_at 16 18) []) eq_refl).
  vm_compute. reflexivity.
Defined.

Lemma X5_expectation_descriptor_witness :
  depth_guard deep_context = false /\
  object_expectation harvest (FixedKeys sample_keys sample_values)
    deep_context tt =
  [Expectation "json:object" "Object" None None] /\
  depth_guard root_context = true /\
  exists fields,
    object_expectation harvest (FixedKeys sample_keys sample_values)
      root_context tt =
    [Expectation "json:object" "Object" (Some fields) None] /\
    map field_key fields = sample_keys.
Proof.
  split; [reflexivity|].
  destruct (X5_expectation_descriptor unit sample_localize sample_quote
              harvest
              (FixedKeys sample_keys sample_values) sample_node deep_context
              tt)
    as (_ & _ & Hdeep & _).
  split; [exact (Hdeep eq_refl)|]. split; [reflexivity|].
  destruct (X5_expectation_descriptor unit sample_localize sample_quote
              harvest
              (FixedKeys sample_keys sample_values) sample_node root_context
              tt)
    as (_ & _ & _ & Hfixed & _).
  destruct (Hfixed sample_keys sample_values eq_refl eq_refl)
    as (fields & Hfields & Hkeys & _).
  exists fields. split; [exact Hfields|exact Hkeys].
Defined.

Lemma X6_object_property_hover_witness :
  key pair_a = Some key_a /\
  includes ["a"; "e"] (string_value key_a) = true /\
  key
    (result
       (check_property sample_localize sample_quote ["a"; "e"] nested_values
          root_context pair_a tt)) =
  Some
    (set_hover key_a
       ("```typescript" ++ newline ++ "root.a: Object" ++ newline ++ "```")
       %string).
Proof.
  split; [reflexivity|]. split; [reflexivity|].
  exact (proj1 (X6_object_property_hover unit sample_localize sample_quote
                  harvest ["a"; "e"] nested_values root_context pair_a key_a
                  AnyObject tt eq_refl eq_refl eq_refl)).
Defined.

Lemma X7_fixed_keys_frame_witness :
  exists children',
    result
      (sample_object (FixedKeys sample_keys sample_values) sample_node
         root_context tt) =
    ObjectNode
      (expected_slots harvest (FixedKeys sample_keys sample_values)
         (slots_at 0 26) root_context tt) children' /\
    given_keys children' = [Some "a"; Some "c"; Some "e"] /\
    nth_error children' 1 = Some pair_c.
Proof.
  destruct (X7_fixed_keys_frame unit sample_localize sample_quote harvest
              sample_keys sample_values (slots_at 0 26)
              [pair_a; pair_c; pair_e] root_context tt)
    as (children' & Hresult & _ & _ & Hgiven & Hsame).
  exists children'. split; [exact Hresult|]. split; [exact Hgiven|].
  inversion Hsame as [|p p' l l' _ Htail]; subst.
  inversion Htail as [|q q' m m' Hc _]; subst.
  cbn [nth_error]. f_equal. apply Hc. right.
  exists key_c. split; reflexivity.
Defined.

Lemma X8_key_without_value_witness :
  key pair_c = Some key_c /\
  value pair_c = None /\
  includes ["c"] (string_value key_c) = true /\
  reports
    (check_property sample_localize sample_quote ["c"] nested_values
       root_context pair_c tt) =
  [{| message := "expected(object())";
      range := {| Range.start := 0; Range.end_ := 0 |};
      severity := ErrorSeverity.Error;
      info := None |}] /\
  value
    (result
       (check_property sample_localize sample_quote ["c"] nested_values
          root_context pair_c tt)) = None.
Proof.
  split; [reflexivity|]. split; [reflexivity|]. split; [reflexivity|].
  destruct (X8_key_without_value unit sample_localize sample_quote harvest
              ["c"] nested_values root_context pair_c key_c tt eq_refl
              eq_refl eq_refl)
    as (_ & Hvalue & _ & _ & Hobject).
  split; [|exact Hvalue].
  exact (proj2 (Hobject AnyObject eq_refl)).
Defined.

(** X9 on the sample schema, and on the record declared as
    [{ b: any, 1: string }], whose keys are [1], [b] in this order. *)
Lemma X9_record_of_literal_witness :
  List.NoDup (Object_keys sample_properties) /\
  reports
    (sample_record (fun _ => sample_properties) tt
       (ObjectNode (slots_at 0 2) []) root_context tt) =
  map (missing_property sample_localize sample_quote
         (node_range (slots_at 0 2)))
    ["a"; "d"] /\
  Object_keys declared_properties = ["b"; "1"] /\
  List.NoDup (Object_keys (Object_literal declared_properties)) /\
  reports
    (sample_record (fun _ => Object_literal declared_properties) tt
       (ObjectNode (slots_at 0 2) []) root_context tt) =
  map (missing_property sample_localize sample_quote
         (node_range (slots_at 0 2)))
    ["1"; "b"].
Proof.
  split; [exact sample_keys_NoDup|].
  destruct (X9_record_of_literal unit sample_localize sample_quote harvest
              sample_properties tt (slots_at 0 2) [] root_context tt
              sample_keys_NoDup)
    as (_ & _ & _ & Hempty).
  split; [exact (f_equal reports Hempty)|].
  split; [reflexivity|].
  assert (Hnodup : List.NoDup (Object_keys (Object_literal declared_properties))).
  { change (List.NoDup ["1"; "b"]).
    repeat constructor; cbn; intuition discriminate. }
  split; [exact Hnodup|].
  destruct (X9_record_of_literal unit sample_localize sample_quote harvest
              (Object_literal declared_properties) tt (slots_at 0 2) []
              root_context tt Hnodup)
    as (_ & _ & _ & Hliteral).
  exact (f_equal reports Hliteral).
Defined.

Lemma sample_values_stable k s :
  rerun_stable (checker_of (sample_values k s)) /\
  preserves_state (checker_of (sample_values k s)).
Proof.
  unfold sample_values, sample_properties. cbn [get_property].
  repeat match goal with
         | |- context [if ?b then _ else _] => destruct b
         end;
    (split;
     [intros [slots children|[slots v]|kind slots items] ctx s';
      split; reflexivity
     |intros [slots children|[slots v]|kind slots items] ctx s';
      reflexivity]).
Qed.


Lemma X11_pick_twice_witness :
  strip_namespace "minecraft:foo" = strip_namespace "foo" /\
  pick (Some "minecraft:foo") [("foo", shared)]
    (state (pick (Some "foo") [("foo", shared)] shared_heap)) =
  pick (Some "foo") [("foo", shared)] shared_heap.
Proof.
  split; [reflexivity|].
  exact (X11_pick_twice Leaf "foo" "minecraft:foo" [("foo", shared)]
           shared_heap eq_refl).
Defined.

Lemma X12_having_order_of_pairs_witness :
  Permutation [pair_a; pair_c; pair_e] [pair_e; pair_c; pair_a] /\
  having (S := unit) sample_localize
    (ObjectNode (slots_at 0 26) [pair_a; pair_c; pair_e]) root_context
    present_cases tt =
  having (S := unit) sample_localize
    (ObjectNode (slots_at 0 26) [pair_e; pair_c; pair_a]) root_context
    present_cases tt.
Proof.
  assert (Hperm : Permutation [pair_a; pair_c; pair_e] [pair_e; pair_c; pair_a])
    by exact (Permutation_rev [pair_a; pair_c; pair_e]).
  split; [exact Hperm|].
  exact (X12_having_order_of_pairs unit sample_localize Leaf (slots_at 0 26)
           _ _ root_context present_cases tt Hperm).
Defined.


(** ** Properties that [pick] has rewritten, under the object checker *)

Section Picked.
Variable S : Type.
Variable localize : string -> list LocaleParam -> string.
Variable localeQuote : string -> string.


End Picked.


(** * Second runs *)

Section DispatchPickRerun.
Variable C : Type.
Variable checker_at : C -> JsonChecker (Heap C).
Variable localize : string -> list LocaleParam -> string.
Variable localeQuote : string -> string.
Variable expectation :
  JsonChecker (Heap C) -> JsonCheckerContext -> Heap C ->
  option (list JsonExpectation).

Hypothesis checker_at_stable : forall l, rerun_stable (checker_at l).
Hypothesis checker_at_state : forall l, preserves_state (checker_at l).

Abbreviation built := (built localize localeQuote expectation).
Abbreviation record_at := (record_at checker_at localize localeQuote expectation).
Abbreviation dispatch_pick :=
  (dispatch_pick checker_at localize localeQuote expectation).

Lemma property_at_checker (o : CheckerRecord C) k :
  checker_of
    (default (Bare no_checker)
       (get_property (map (fun e => (e.1, property_at checker_at e.2)) o) k))
    = no_checker \/
  exists l,
    checker_of
      (default (Bare no_checker)
         (get_property (map (fun e => (e.1, property_at checker_at e.2)) o) k))
    = checker_at l.
Proof.
  rewrite get_property_map.
  destruct (get_property o k) as [[l|cp]|]; cbn; eauto.
Qed.

Lemma record_at_built r h : built (record_at r h).
Proof.
  destruct r as [properties|properties]; unfold record_at, record;
    apply built_fixed; intros k h'; apply built_leaf.
  - destruct (property_at_checker properties k) as [->|[l ->]];
      [apply no_checker_stable|apply checker_at_stable].
  - destruct (property_at_checker (read h' properties) k) as [->|[l ->]];
      [apply no_checker_stable|apply checker_at_stable].
Qed.

Lemma record_at_state r h : preserves_state (record_at r h).
Proof.
  destruct r as [properties|properties]; unfold record_at, record;
    apply fixed_keys_state; intros k h'.
  - destruct (property_at_checker properties k) as [->|[l ->]];
      [intros node ctx s; reflexivity|apply checker_at_state].
  - destruct (property_at_checker (read h' properties) k) as [->|[l ->]];
      [intros node ctx s; reflexivity|apply checker_at_state].
Qed.

Lemma dispatch_pick_built keyName cases : built (dispatch_pick keyName cases).
Proof.
  unfold dispatch_pick. apply built_dispatch.
  - intros v children children' s _. reflexivity.
  - intros v children s. unfold bind, gets. cbn [result].
    apply record_at_built.
Qed.

Lemma dispatch_pick_settled keyName cases node ctx h :
  dispatch_pick keyName cases node ctx
    (state (dispatch_pick keyName cases node ctx h)) =
  dispatch_pick keyName cases node ctx h.
Proof.
  destruct node as [slots children|[slots v]|kind slots items];
    try reflexivity.
  unfold dispatch_pick. rewrite !dispatch_on_object.
  unfold bind, gets. cbn [result state reports].
  set (d := discriminant_of keyName children).
  rewrite !(record_at_state (result (pick d cases h))
              (state (pick d cases h)) _ _ _).
  rewrite !pick_again.
  rewrite ?(record_at_state (result (pick d cases h))
              (state (pick d cases h)) _ _ _).
  reflexivity.
Qed.

Lemma dispatch_pick_rerun keyName cases node ctx h :
  dispatch_pick keyName cases
    (result (dispatch_pick keyName cases node ctx h)) ctx
    (state (dispatch_pick keyName cases node ctx h)) =
  dispatch_pick keyName cases node ctx h.
Proof.
  rewrite <- (dispatch_pick_settled keyName cases node ctx h) at 1.
  rewrite (proj2 (built_rerun_stable _ _ _ _ _
                    (dispatch_pick_built keyName cases) node ctx _)).
  apply dispatch_pick_settled.
Qed.

End DispatchPickRerun.

Lemma leaf_checker_state (S : Type) (l : Leaf) :
  preserves_state (@leaf_checker S l).
Proof.
  intros node ctx s.
  destruct l, node as [slots children|[slots v]|kind slots items];
    reflexivity.
Qed.

Lemma built_picking_schema (h : Heap Leaf) :
  built sample_localize sample_quote harvest (picking_schema h).
Proof.
  unfold picking_schema. apply built_sample_record.
  intros h' k p. cbn [get_property].
  destruct (String.eqb "b" k); [|discriminate].
  intros [= <-]. apply built_dispatch.
  - intros v children children' s _. reflexivity.
  - intros v children s. apply built_record_of.
Qed.



